(** * Retention policy of docker-registry-ui: the tag purge task

    A shallow embedding of [registry/tasks.go] in its two variants:
    - [Single]: one tag rule per repository rule ([PurgeConfig] with
      [TagsRegex], [TagsKeepDays], [TagsKeepCount]);
    - [Multi]: an ordered list of tag rules per repository rule
      ([PurgeConfig] with [Tags : []TagConfig]).

    Go's [int] is modelled as [Z], slices as lists, strings as [string].
    The libraries the task calls ([regexp], [sort], the registry client and
    the manifest reader) are interfaces of the development. *)

From Stdlib Require Import ZArith List Ascii String Bool Lia.
From Stdlib Require Import Permutation Sorted.
From Stdlib Require Import SpecFloat.
Import ListNotations.

Local Open Scope string_scope.
Local Open Scope list_scope.
Local Open Scope Z_scope.

(** ** Go's [time] package: instants, durations and [Duration.Hours] *)

Module GoTime.

(** [time.Duration] is an [int64] count of nanoseconds. *)
Definition Duration := Z.

Definition minDuration : Duration := - 2 ^ 63.
Definition maxDuration : Duration := 2 ^ 63 - 1.

Definition Nanosecond : Duration := 1.
Definition Second : Duration := 1000000000 * Nanosecond.
Definition Minute : Duration := 60 * Second.
Definition Hour : Duration := 60 * Minute.

(** [time.Time]: an instant, as nanoseconds since the Unix epoch. *)
Definition Time := Z.

(** [t.After(u)] *)
Definition After (t u : Time) : bool := u <? t.

(** [t.Sub(u)]: the difference, saturated to the range of [Duration]. *)
Definition Sub (t u : Time) : Duration :=
  let d := t - u in
  if d <? minDuration then minDuration
  else if maxDuration <? d then maxDuration
  else d.

(** IEEE 754 binary64, Go's [float64]. *)
Definition prec : Z := 53.
Definition emax : Z := 1024.
Definition float64 := spec_float.

(** [float64(n)] for an integer [n]: the nearest binary64. *)
Definition float64_of_int (n : Z) : float64 :=
  binary_normalize prec emax n 0 false.

Definition fadd : float64 -> float64 -> float64 := SFadd prec emax.
Definition fdiv : float64 -> float64 -> float64 := SFdiv prec emax.

(** [int(f)]: conversion of a finite float to an integer truncates
    towards zero.  (The task converts a number of days, which is finite and
    far inside the range of [int].) *)
Definition int_of_float64 (f : float64) : Z :=
  match f with
  | S754_finite s m e =>
      let a := match e with
               | Z0 => Zpos m
               | Zpos p => Zpos m * 2 ^ Zpos p
               | Zneg p => Zpos m / 2 ^ Zpos p
               end in
      if s then - a else a
  | _ => 0
  end.

(** [d.Hours()]:
<<
    hour := d / Hour
    nsec := d % Hour
    return float64(hour) + float64(nsec)/(60*60*1e9)
>>
    with Go's integer division and remainder, which truncate. *)
Definition Hours (d : Duration) : float64 :=
  let hour := Z.quot d Hour in
  let nsec := Z.rem d Hour in
  fadd (float64_of_int hour)
       (fdiv (float64_of_int nsec) (float64_of_int (60 * 60 * 1000000000))).

End GoTime.

Import GoTime.

(** ** Data shared by the two variants *)

(** [type tagData struct { name string; created time.Time }] *)
Record tagData : Type := mkTagData { name : string; created : Time }.

(** [type timeSlice []tagData] *)
Definition timeSlice := list tagData.

(** [p.Less(i, j)]: [p[i].created.After(p[j].created)]. *)
Definition Less (a b : tagData) : bool := After (created a) (created b).

(** [len(s)] as a Go [int]. *)
Definition len {A : Type} (s : list A) : Z := Z.of_nat (List.length s).

(** [delta := int(now.Sub(tag.created).Hours() / 24)] *)
Definition delta (now : Time) (tag : tagData) : Z :=
  int_of_float64 (fdiv (Hours (Sub now (created tag))) (float64_of_int 24)).

(** The decision for one group of tags: [keepTags] and [purgeTags]. *)
Record Decision : Type := mkDecision
  { keepTags : list string; purgeTags : list string }.

(** ** The libraries the task calls *)

(** Go's [regexp]: [Compile] fails ([None]) on a malformed pattern;
    [FindStringIndex] returns the location of the leftmost match, or
    [nil] ([None]) when there is none. *)
Class RegexpLib : Type := {
  Regexp : Type;
  Compile : string -> option Regexp;
  FindStringIndex : Regexp -> string -> option (nat * nat)
}.

(** What the catch-all rule relies on: the pattern [.*] compiles and finds
    a (possibly empty) match in every string. *)
Definition DotStarMatchesAll (re : RegexpLib) : Prop :=
  exists r, Compile ".*" = Some r /\ forall s, FindStringIndex r s <> None.

(** [a] may stand before [b] in a slice sorted by [Less]. *)
Definition notOlder (a b : tagData) : Prop := Less b a = false.

(** [a] was created after [b]. *)
Definition newer (a b : tagData) : Prop := Less a b = true.

(** Go's [sort.Sort] on a [timeSlice]. *)
Class SortLib : Type := { Sort : timeSlice -> timeSlice }.

(** What [sort.Sort] promises: the result holds the same elements and no
    later element is [Less] than an earlier one.  The sort is not stable,
    so nothing more is known about tags created at the same instant. *)
Definition SortsByLess (so : SortLib) : Prop :=
  forall p, Permutation (Sort p) p /\ StronglySorted notOlder (Sort p).

(** [gjson.Get(gjson.Get(infoV1, "history.0.v1Compatibility").String(),
    "created").Time()]: the creation time read from a v1 manifest. *)
Class ManifestLib : Type := { createdOf : string -> Time }.

Module Registry.

(** The registry client as the task reads it: [Repositories] is the
    catalog in the order [range] yields its namespaces, [Tags] the tags
    of a repository, [TagInfo] the v1 manifest of a tag (the empty string
    when it is missing). *)
Record Client : Type := mkClient {
  Repositories : list (string * list string);
  Tags : string -> list string;
  TagInfo : string -> string -> string
}.

End Registry.

(** What a run leaves behind: the [Warn] and [Error] lines of the logger
    and the [client.DeleteTag(repo, tag)] calls, in order.  [Info] and
    [Debug] lines carry no decision and are left out. *)
Inductive Event : Type :=
| WarnDryRun
| WarnRepoRegex (repo : string)
| WarnTagRegex (repo tag : string)
| ErrorMissingManifest (repo tag : string)
| DeleteTag (repo tag : string).

(** The outcome of [analyzeRepo] for one repository. *)
Record Report : Type := mkReport {
  repoName : string;
  decision : Decision;
  events : list Event
}.

Definition noDecision : Decision := mkDecision [] [].

(** The [DeleteTag] calls of a trace, as (repository, tag) pairs. *)
Fixpoint deleteCalls (es : list Event) : list (string * string) :=
  match es with
  | [] => []
  | DeleteTag repo tag :: rest => (repo, tag) :: deleteCalls rest
  | _ :: rest => deleteCalls rest
  end.

Definition isRegexWarning (e : Event) : bool :=
  match e with
  | WarnRepoRegex _ | WarnTagRegex _ _ => true
  | _ => false
  end.

(** The outcome of a run of [PurgeOldTags]. *)
Record Run : Type := mkRun {
  startup : list Event;
  reports : list Report
}.

Definition trace (r : Run) : list Event :=
  startup r ++ flat_map events (reports r).

(** [repo = fmt.Sprintf("%s/%s", namespace, repo)] unless the namespace is
    [library]. *)
Definition fullName (namespace repo : string) : string :=
  if String.eqb namespace "library" then repo
  else String.append namespace (String.append "/" repo).

(** The catalog as the two nested [range] loops visit it. *)
Definition visited (catalog : list (string * list string))
  : list (string * string) :=
  flat_map (fun entry => map (fun repo => (fst entry, repo)) (snd entry))
           catalog.

(** ** The retention steps, common to both variants *)

Section Retention.

Variable now : Time.
Variable keepDays keepCount : Z.

(** [delta > TagsKeepDays] *)
Definition stale (tag : tagData) : bool := keepDays <? delta now tag.

(** "Filter out tags by retention days": the loop over the tags, with
    the two slices it appends to. *)
Fixpoint filterByRetention (tags : timeSlice)
         (purge keep : list string) : list string * list string :=
  match tags with
  | [] => (purge, keep)
  | tag :: rest =>
      if stale tag
      then filterByRetention rest (purge ++ [name tag]) keep
      else filterByRetention rest purge (keep ++ [name tag])
  end.

(** "Keep minimal count of tags no matter how old they are", for a group
    of [total] tags.  The slice bounds [purge[:keepCount]] and
    [purge[keepCount:]] are in range wherever that branch is taken with
    [len purge <= total] (lemma [rescue_bounds]). *)
Definition keepMinimalCount (total : Z) (purge keep : list string)
  : Decision :=
  if total - len purge <? keepCount then
    if keepCount <? len purge then
      mkDecision (keep ++ firstn (Z.to_nat keepCount) purge)
                 (skipn (Z.to_nat keepCount) purge)
    else
      mkDecision (keep ++ purge) []
  else mkDecision keep purge.

(** The tags of [tags] marked for purge, and the others, in the order of
    [tags]. *)
Definition staleNames (tags : timeSlice) : list string :=
  map name (filter stale tags).

Definition freshNames (tags : timeSlice) : list string :=
  map name (filter (fun tag => negb (stale tag)) tags).

(** The decision for tags filtered in the order [tags]. *)
Definition decide (tags : timeSlice) : Decision :=
  keepMinimalCount (len tags) (staleNames tags) (freshNames tags).

End Retention.

(** ** Variant with one tag rule per repository rule *)

Module Single.

(** [PurgeConfig] *)
Record PurgeConfig : Type := mkPurgeConfig {
  RepoRegex : string;
  TagsRegex : string;
  TagsKeepDays : Z;
  TagsKeepCount : Z
}.

(** The rule appended by [PurgeOldTags]:
    "Add the global configuration at the end of purgeTagsConfig to use it
    when no other rule match". *)
Definition globalConfig (purgeTagsKeepDays purgeTagsKeepCount : Z)
  : PurgeConfig :=
  mkPurgeConfig ".*" ".*" purgeTagsKeepDays purgeTagsKeepCount.

(** How the loop over [purgeTagsConfig] ends: a regex that does not
    compile, no rule left, or the first rule that matches. *)
Inductive Selected : Type :=
| RegexError
| NoMatch
| Match (purgeConfig : PurgeConfig).

(** How the loop over the tags ends. *)
Inductive Scanned : Type :=
| TagRegexError
| Collected (tagsFromRepo : timeSlice).

Section Task.

Context {re : RegexpLib} {so : SortLib} {mf : ManifestLib}.
Variable client : Registry.Client.

Fixpoint selectConfig (repo : string) (purgeTagsConfig : list PurgeConfig)
  : Selected :=
  match purgeTagsConfig with
  | [] => NoMatch
  | config :: rest =>
      match Compile (RepoRegex config) with
      | None => RegexError
      | Some r =>
          match FindStringIndex r repo with
          | Some _ => Match config
          | None => selectConfig repo rest
          end
      end
  end.

(** The loop over [tags]; [tagsFromRepo] and [log] are what it has
    appended so far. *)
Fixpoint scanTags (repo : string) (purgeConfig : PurgeConfig)
         (tags : list string) (tagsFromRepo : timeSlice)
         (log : list Event) : Scanned * list Event :=
  match tags with
  | [] => (Collected tagsFromRepo, log)
  | tag :: rest =>
      match Compile (TagsRegex purgeConfig) with
      | None => (TagRegexError, log ++ [WarnTagRegex repo tag])
      | Some r =>
          match FindStringIndex r tag with
          | None => scanTags repo purgeConfig rest tagsFromRepo log
          | Some _ =>
              let infoV1 := Registry.TagInfo client repo tag in
              if String.eqb infoV1 ""
              then scanTags repo purgeConfig rest tagsFromRepo
                            (log ++ [ErrorMissingManifest repo tag])
              else scanTags repo purgeConfig rest
                            (tagsFromRepo
                               ++ [mkTagData tag (createdOf infoV1)])
                            log
          end
      end
  end.

(** Sort newest first, filter by retention days, keep the minimal
    count. *)
Definition partition (keepDays keepCount : Z) (now : Time)
           (tagsFromRepo : timeSlice) : Decision :=
  let sortedTags := Sort tagsFromRepo in
  let '(purge, keep) := filterByRetention now keepDays sortedTags [] [] in
  keepMinimalCount keepCount (len sortedTags) purge keep.

(** The last loop.  Its outer variable is named [repo] and ranges over
    [purgeTags], and the inner loop ranges over [purgeTags] again:
<<
  for _, repo := range purgeTags {
    if purgeDryRun { continue }
    for _, tag := range purgeTags { client.DeleteTag(repo, tag) }
  }
>>  *)
Definition purgeLoop (purgeDryRun : bool) (purgeTags : list string)
  : list Event :=
  flat_map (fun repo =>
              if purgeDryRun then []
              else map (fun tag => DeleteTag repo tag) purgeTags)
           purgeTags.

Definition analyzeRepo (namespace repo : string)
           (purgeTagsConfig : list PurgeConfig) (now : Time)
           (purgeDryRun : bool) : Report :=
  let repo := fullName namespace repo in
  match selectConfig repo purgeTagsConfig with
  | RegexError => mkReport repo noDecision [WarnRepoRegex repo]
  | NoMatch => mkReport repo noDecision []
  | Match purgeConfig =>
      let tags := Registry.Tags client repo in
      if len tags =? 0 then mkReport repo noDecision []
      else
        match scanTags repo purgeConfig tags [] [] with
        | (TagRegexError, log) => mkReport repo noDecision log
        | (Collected tagsFromRepo, log) =>
            let d := partition (TagsKeepDays purgeConfig)
                               (TagsKeepCount purgeConfig)
                               now tagsFromRepo in
            mkReport repo d (log ++ purgeLoop purgeDryRun (purgeTags d))
        end
  end.

(** [PurgeOldTags]; [now] is the [time.Now().UTC()] it reads.  The two
    nested loops over the catalog append one report per repository. *)
Definition PurgeOldTags (purgeDryRun : bool)
           (purgeTagsKeepDays purgeTagsKeepCount : Z)
           (purgeTagsConfig : list PurgeConfig) (now : Time) : Run :=
  let purgeTagsConfig :=
    purgeTagsConfig
      ++ [globalConfig purgeTagsKeepDays purgeTagsKeepCount] in
  let catalog := Registry.Repositories client in
  mkRun (if purgeDryRun then [WarnDryRun] else [])
        (fold_left
           (fun done entry =>
              fold_left
                (fun done repo =>
                   done ++ [analyzeRepo (fst entry) repo purgeTagsConfig
                                        now purgeDryRun])
                (snd entry) done)
           catalog []).

End Task.

End Single.

(** ** Variant with a list of tag rules per repository rule *)

Module Multi.

(** [TagConfig] *)
Record TagConfig : Type := mkTagConfig {
  TagsRegex : string;
  TagsKeepDays : Z;
  TagsKeepCount : Z
}.

(** [PurgeConfig] *)
Record PurgeConfig : Type := mkPurgeConfig {
  RepoRegex : string;
  Tags : list TagConfig
}.

Definition globalConfig (purgeTagsKeepDays purgeTagsKeepCount : Z)
  : PurgeConfig :=
  mkPurgeConfig ".*" [mkTagConfig ".*" purgeTagsKeepDays purgeTagsKeepCount].

(** Equality of map keys: [TagConfig] values are compared field by
    field. *)
Definition TagConfig_eqb (a b : TagConfig) : bool :=
  String.eqb (TagsRegex a) (TagsRegex b)
  && (TagsKeepDays a =? TagsKeepDays b)
  && (TagsKeepCount a =? TagsKeepCount b).

(** [map[TagConfig]timeSlice]: one entry per key. *)
Definition Groups := list (TagConfig * timeSlice).

(** [m[k] = append(m[k], d)] *)
Fixpoint appendTo (k : TagConfig) (d : tagData) (m : Groups) : Groups :=
  match m with
  | [] => [(k, [d])]
  | (k', v) :: rest =>
      if TagConfig_eqb k k' then (k', v ++ [d]) :: rest
      else (k', v) :: appendTo k d rest
  end.

(** [range] over a map visits every entry once, in an order Go does not
    specify and which may differ from one loop to the next. *)
Record MapRange : Type := mkMapRange {
  rangeOver : Groups -> Groups;
  rangeOver_Permutation : forall m, Permutation (rangeOver m) m
}.

Inductive Selected : Type :=
| RegexError
| NoMatch
| Match (purgeConfig : PurgeConfig).

(** How the loop over the tag rules of the selected repository rule
    ends, for one tag. *)
Inductive SelectedTag : Type :=
| TagRegexError
| TagNoMatch
| TagMatch (selectedTagConfig : TagConfig).

Inductive Scanned : Type :=
| ScanAborted
| Collected (tagsFromRepo : Groups).

Section Task.

Context {re : RegexpLib} {mf : ManifestLib}.
Variable client : Registry.Client.

Fixpoint selectConfig (repo : string) (purgeTagsConfig : list PurgeConfig)
  : Selected :=
  match purgeTagsConfig with
  | [] => NoMatch
  | config :: rest =>
      match Compile (RepoRegex config) with
      | None => RegexError
      | Some r =>
          match FindStringIndex r repo with
          | Some _ => Match config
          | None => selectConfig repo rest
          end
      end
  end.

Fixpoint selectTagConfig (tag : string) (tagConfigs : list TagConfig)
  : SelectedTag :=
  match tagConfigs with
  | [] => TagNoMatch
  | tagConfig :: rest =>
      match Compile (TagsRegex tagConfig) with
      | None => TagRegexError
      | Some r =>
          match FindStringIndex r tag with
          | Some _ => TagMatch tagConfig
          | None => selectTagConfig tag rest
          end
      end
  end.

Fixpoint scanTags (repo : string) (purgeConfig : PurgeConfig)
         (tags : list string) (tagsFromRepo : Groups)
         (log : list Event) : Scanned * list Event :=
  match tags with
  | [] => (Collected tagsFromRepo, log)
  | tag :: rest =>
      match selectTagConfig tag (Tags purgeConfig) with
      | TagRegexError => (ScanAborted, log ++ [WarnTagRegex repo tag])
      | TagNoMatch => scanTags repo purgeConfig rest tagsFromRepo log
      | TagMatch selectedTagConfig =>
          let infoV1 := Registry.TagInfo client repo tag in
          if String.eqb infoV1 ""
          then scanTags repo purgeConfig rest tagsFromRepo
                        (log ++ [ErrorMissingManifest repo tag])
          else scanTags repo purgeConfig rest
                        (appendTo selectedTagConfig
                           (mkTagData tag (createdOf infoV1))
                           tagsFromRepo)
                        log
      end
  end.

(** The body of the loop over the groups.  The source sorts a copy,
<<
  sortedTags := make(timeSlice, 0, len(tagsFromRepo))
  for _, d := range tags { sortedTags = append(sortedTags, d) }
  sort.Sort(sortedTags)
  tagsFromRepo[tagConfig] = sortedTags
>>
    stores it in the map, where only the [Info] line "All" reads it, and
    then filters [tags], the slice the [range] clause yielded:
<<
  for _, tag := range tags { ... }
  if len(tags)-len(purgeTagsForThisConfig) < tagConfig.TagsKeepCount {
>>  *)
Definition partition (keepDays keepCount : Z) (now : Time)
           (tags : timeSlice) : Decision :=
  let '(purgeTagsForThisConfig, keepTagsForThisConfig) :=
    filterByRetention now keepDays tags [] [] in
  keepMinimalCount keepCount (len tags)
                   purgeTagsForThisConfig keepTagsForThisConfig.

(** The loop over the groups, in the order [range] yields them;
    [acc] holds [keepTags] and [purgeTags] so far. *)
Fixpoint partitionGroups (now : Time) (groups : Groups) (acc : Decision)
  : Decision :=
  match groups with
  | [] => acc
  | (tagConfig, tags) :: rest =>
      let d := partition (TagsKeepDays tagConfig)
                         (TagsKeepCount tagConfig) now tags in
      partitionGroups now rest
        (mkDecision (keepTags acc ++ keepTags d)
                    (purgeTags acc ++ purgeTags d))
  end.

(** The last loop: [client.DeleteTag(repo, tag)] for each purged tag
    unless [purgeDryRun]. *)
Definition purgeLoop (repo : string) (purgeDryRun : bool)
           (purgeTags : list string) : list Event :=
  flat_map (fun tag => if purgeDryRun then [] else [DeleteTag repo tag])
           purgeTags.

Definition analyzeRepo (range : MapRange) (namespace repo : string)
           (purgeTagsConfig : list PurgeConfig) (now : Time)
           (purgeDryRun : bool) : Report :=
  let repo := fullName namespace repo in
  match selectConfig repo purgeTagsConfig with
  | RegexError => mkReport repo noDecision [WarnRepoRegex repo]
  | NoMatch => mkReport repo noDecision []
  | Match purgeConfig =>
      let tags := Registry.Tags client repo in
      if len tags =? 0 then mkReport repo noDecision []
      else
        match scanTags repo purgeConfig tags [] [] with
        | (ScanAborted, log) => mkReport repo noDecision log
        | (Collected tagsFromRepo, log) =>
            let d := partitionGroups now (rangeOver range tagsFromRepo)
                                     noDecision in
            mkReport repo d
                     (log ++ purgeLoop repo purgeDryRun (purgeTags d))
        end
  end.

Definition PurgeOldTags (range : MapRange) (purgeDryRun : bool)
           (purgeTagsKeepDays purgeTagsKeepCount : Z)
           (purgeTagsConfig : list PurgeConfig) (now : Time) : Run :=
  let purgeTagsConfig :=
    purgeTagsConfig
      ++ [globalConfig purgeTagsKeepDays purgeTagsKeepCount] in
  let catalog := Registry.Repositories client in
  mkRun (if purgeDryRun then [WarnDryRun] else [])
        (fold_left
           (fun done entry =>
              fold_left
                (fun done repo =>
                   done ++ [analyzeRepo range (fst entry) repo
                                        purgeTagsConfig now purgeDryRun])
                (snd entry) done)
           catalog []).

End Task.

End Multi.

(** ** Libraries to run the task on examples *)

Module Examples.

(** Insertion of a tag into a slice sorted newest first. *)
Fixpoint insertSorted (d : tagData) (p : timeSlice) : timeSlice :=
  match p with
  | [] => [d]
  | x :: rest => if Less d x then d :: p else x :: insertSorted d rest
  end.

Definition insertionSort (p : timeSlice) : timeSlice :=
  fold_right insertSorted [] p.

(** Length of the first line of a string: what [.*] matches at offset 0,
    since [.] does not match a newline. *)
Fixpoint firstLine (s : string) : nat :=
  match s with
  | EmptyString => 0%nat
  | String c rest =>
      if Ascii.eqb c "010"%char then 0%nat else S (firstLine rest)
  end.

(** A small engine: [(] is rejected (missing closing parenthesis), [.*]
    matches in every string, any other pattern is searched as a literal
    substring. *)
Definition literalCompile (pattern : string) : option string :=
  if String.eqb pattern "(" then None else Some pattern.

Definition literalFind (r s : string) : option (nat * nat) :=
  if String.eqb r ".*" then Some (0%nat, firstLine s)
  else match index 0 r s with
       | Some i => Some (i, (i + String.length r)%nat)
       | None => None
       end.

Definition insertionSortLib : SortLib := {| Sort := insertionSort |}.

Definition literalRegexpLib : RegexpLib := {|
  Regexp := string;
  Compile := literalCompile;
  FindStringIndex := literalFind
|}.

(** The zero [time.Time], January 1 of year 1, which [Time()] returns
    for a manifest without a readable date. *)
Definition zeroTime : Time := - 62135596800 * Second.

(** Manifests given by a table of their creation times. *)
Fixpoint lookupCreated (table : list (string * Time)) (infoV1 : string)
  : Time :=
  match table with
  | [] => zeroTime
  | (m, t) :: rest =>
      if String.eqb m infoV1 then t else lookupCreated rest infoV1
  end.

Definition day : Duration := 24 * Hour.

(** A tag created [age] days before [now]. *)
Definition aged (now : Time) (tag : string) (age : Z) : tagData :=
  mkTagData tag (now - age * day).

(** The group of the scenarios: ages 1, 10, 40, 90 and 200 days. *)
Definition scenarioGroup (now : Time) : timeSlice :=
  [aged now "t1" 1; aged now "t10" 10; aged now "t40" 40;
   aged now "t90" 90; aged now "t200" 200].

(** 2026-01-01T00:00:00Z *)
Definition newYear : Time := 1767225600 * Second.

(** The same group as the registry may list it, oldest tag first. *)
Definition listedOldestFirst (now : Time) : timeSlice :=
  rev (scenarioGroup now).

(** A registry with one repository, [app], in the [library] namespace,
    holding two tags. *)
Definition appClient : Registry.Client := {|
  Registry.Repositories := [("library", ["app"])];
  Registry.Tags :=
    fun repo => if String.eqb repo "app" then ["v1"; "v2"] else [];
  Registry.TagInfo := fun repo tag => String.append "manifest of " tag
|}.

(** [v1] was created 40 days and [v2] 90 days before [newYear]. *)
Definition appManifests : ManifestLib := {|
  createdOf := lookupCreated [("manifest of v1", newYear - 40 * day);
                              ("manifest of v2", newYear - 90 * day)]
|}.

(** A [range] that yields the groups in the order of their first tag. *)
Definition inOrder : Multi.MapRange := {|
  Multi.rangeOver := fun m => m;
  Multi.rangeOver_Permutation := fun m => Permutation_refl m
|}.

(** A [range] that yields the groups in the opposite order. *)
Definition reversed : Multi.MapRange := {|
  Multi.rangeOver := fun m => rev m;
  Multi.rangeOver_Permutation := fun m => Permutation_sym (Permutation_rev m)
|}.

(** A rule whose repository pattern does not compile. *)
Definition brokenRepoRule : Single.PurgeConfig :=
  Single.mkPurgeConfig "(" ".*" 30 2.

(** A rule whose tag pattern does not compile. *)
Definition brokenTagRule : Single.PurgeConfig :=
  Single.mkPurgeConfig "app" "(" 30 2.

(** A rule with two tag rules: [v1] falls under the first, [v2] under the
    second, and both are older than their rule allows. *)
Definition twoTagRules : Multi.PurgeConfig :=
  Multi.mkPurgeConfig "app" [Multi.mkTagConfig "v1" 30 0;
                             Multi.mkTagConfig "v" 60 0].

(** A rule with two tag rules, the second of which does not compile. *)
Definition brokenSecondTagRule : Multi.PurgeConfig :=
  Multi.mkPurgeConfig "app" [Multi.mkTagConfig "v1" 30 2;
                             Multi.mkTagConfig "(" 30 2].

End Examples.

(** ** Vocabulary of the properties *)

(** [d] splits the tags of [group]: nothing is lost, added or counted
    twice. *)
Definition CompleteSplit (group : timeSlice) (d : Decision) : Prop :=
  len (keepTags d) + len (purgeTags d) = len group
  /\ Permutation (keepTags d ++ purgeTags d) (map name group)
  /\ (forall tag, In tag (keepTags d) \/ In tag (purgeTags d) ->
                  In tag (map name group))
  /\ (NoDup (map name group) ->
      forall tag, In tag (map name group) ->
                  (In tag (keepTags d) /\ ~ In tag (purgeTags d))
                  \/ (~ In tag (keepTags d) /\ In tag (purgeTags d))).

(** Two decisions that keep the same tags and purge the same tags, the
    order within each list apart. *)
Definition sameSets (d d' : Decision) : Prop :=
  Permutation (keepTags d) (keepTags d')
  /\ Permutation (purgeTags d) (purgeTags d').

(** Two reports on the same repository with the same tags kept and the
    same tags purged. *)
Definition sameOutcome (r r' : Report) : Prop :=
  repoName r = repoName r' /\ sameSets (decision r) (decision r').

(** [pattern] compiles and finds no match in [subject]. *)
Definition compilesNoMatch {re : RegexpLib} (pattern subject : string)
  : Prop :=
  exists r, Compile pattern = Some r /\ FindStringIndex r subject = None.

(** The loop over the repository rules reaches a pattern that does not
    compile: the rules before it compile and do not match [repo]. *)
Definition repoRegexFails {re : RegexpLib} {Config : Type}
           (RepoRegex : Config -> string) (repo : string)
           (purgeTagsConfig : list Config) : Prop :=
  exists before config after,
    purgeTagsConfig = before ++ config :: after
    /\ Forall (fun c => compilesNoMatch (RepoRegex c) repo) before
    /\ Compile (RepoRegex config) = None.

(** Variant with one tag rule: the selected rule has a tag pattern that
    does not compile, and there is a tag to check it against. *)
Definition Single_tagRegexFails {re : RegexpLib} (client : Registry.Client)
           (repo : string) (purgeTagsConfig : list Single.PurgeConfig)
  : Prop :=
  exists purgeConfig,
    Single.selectConfig repo purgeTagsConfig = Single.Match purgeConfig
    /\ Registry.Tags client repo <> []
    /\ Compile (Single.TagsRegex purgeConfig) = None.

(** Variant with a list of tag rules: some tag of the repository reaches a
    tag pattern of the selected rule that does not compile. *)
Definition Multi_tagRegexFails {re : RegexpLib} (client : Registry.Client)
           (repo : string) (purgeTagsConfig : list Multi.PurgeConfig)
  : Prop :=
  exists purgeConfig before tagConfig after tag,
    Multi.selectConfig repo purgeTagsConfig = Multi.Match purgeConfig
    /\ Multi.Tags purgeConfig = before ++ tagConfig :: after
    /\ In tag (Registry.Tags client repo)
    /\ Forall (fun c => compilesNoMatch (Multi.TagsRegex c) tag) before
    /\ Compile (Multi.TagsRegex tagConfig) = None.

(** The repository was given up: nothing kept, nothing purged, nothing
    deleted, and a warning about the regex in the log. *)
Definition AbortedReport (r : Report) : Prop :=
  decision r = noDecision
  /\ deleteCalls (events r) = []
  /\ exists e, In e (events r) /\ isRegexWarning e = true.

(** The decision the scenario with keepDays = 30 and keepCount = 4 is
    said to end in: the oldest tag purged, the four others kept. *)
Definition scenarioB_claimed (d : Decision) : Prop :=
  Permutation (purgeTags d) ["t200"]
  /\ Permutation (keepTags d) ["t1"; "t10"; "t40"; "t90"].

(** ** The rest of [sort.Interface] and further vocabulary *)

(** [p.Len()] *)
Definition Len (p : timeSlice) : Z := len p.

(** [0 <= i && i < len(p)]: the indices at which [p[i]] does not panic. *)
Definition inRange (p : timeSlice) (i : Z) : bool :=
  (0 <=? i) && (i <? len p).

(** [p[i] = d] for an index in range. *)
Fixpoint assign (p : timeSlice) (i : nat) (d : tagData) : timeSlice :=
  match p, i with
  | [], _ => []
  | _ :: rest, O => d :: rest
  | x :: rest, S i => x :: assign rest i d
  end.

(** [p.Swap(i, j)]: [p[i], p[j] = p[j], p[i]].  Both operands are read
    before either element is assigned; an index out of range panics
    ([None]). *)
Definition Swap (p : timeSlice) (i j : Z) : option timeSlice :=
  if inRange p i && inRange p j then
    match nth_error p (Z.to_nat i), nth_error p (Z.to_nat j) with
    | Some a, Some b =>
        Some (assign (assign p (Z.to_nat i) b) (Z.to_nat j) a)
    | _, _ => None
    end
  else None.

(** The index [n] of the swapped slice holds what stood at this index. *)
Definition exchanged (i j n : nat) : nat :=
  if Nat.eqb n i then j else if Nat.eqb n j then i else n.

(** [p.Less(i, j)] on indices, as [sort.Sort] calls it. *)
Definition LessAt (p : timeSlice) (i j : Z) : option bool :=
  if inRange p i && inRange p j then
    match nth_error p (Z.to_nat i), nth_error p (Z.to_nat j) with
    | Some a, Some b => Some (Less a b)
    | _, _ => None
    end
  else None.

(** [re.FindStringIndex(s) != nil] *)
Definition found {re : RegexpLib} (r : Regexp) (s : string) : bool :=
  match FindStringIndex r s with
  | Some _ => true
  | None => false
  end.

(** [pattern] compiles and finds a match in [subject]. *)
Definition compilesAndMatches {re : RegexpLib} (pattern subject : string)
  : Prop :=
  exists r, Compile pattern = Some r /\ found r subject = true.

(** [infoV1 != ""] for the manifest of a tag. *)
Definition hasManifest (client : Registry.Client) (repo tag : string) : bool :=
  negb (String.eqb (Registry.TagInfo client repo tag) "").

(** The tag as it is appended to [tagsFromRepo]. *)
Definition tagDataOf {mf : ManifestLib} (client : Registry.Client)
           (repo tag : string) : tagData :=
  mkTagData tag (createdOf (Registry.TagInfo client repo tag)).

(** The "missing manifest v1" lines of a trace, as (repository, tag)
    pairs. *)
Fixpoint missingManifests (es : list Event) : list (string * string) :=
  match es with
  | [] => []
  | ErrorMissingManifest repo tag :: rest =>
      (repo, tag) :: missingManifests rest
  | _ :: rest => missingManifests rest
  end.

(** [m[k]] on the map of groups: the slice stored under [k], [nil] when
    there is none. *)
Fixpoint lookupGroup (k : Multi.TagConfig) (m : Multi.Groups) : timeSlice :=
  match m with
  | [] => []
  | (k', v) :: rest =>
      if Multi.TagConfig_eqb k k' then v else lookupGroup k rest
  end.

(** The tag rule under which the variant with a list of tag rules files a
    tag: the first one that matches, when every rule before it compiles
    and the manifest is there. *)
Definition filedUnder {re : RegexpLib} (client : Registry.Client)
           (purgeConfig : Multi.PurgeConfig) (repo tag : string)
  : option Multi.TagConfig :=
  match Multi.selectTagConfig tag (Multi.Tags purgeConfig) with
  | Multi.TagMatch selectedTagConfig =>
      if hasManifest client repo tag then Some selectedTagConfig else None
  | _ => None
  end.

(** What the loop over the tags does to the map of groups for one tag that
    raises no regex error. *)
Definition fileTag {re : RegexpLib} {mf : ManifestLib}
           (client : Registry.Client) (purgeConfig : Multi.PurgeConfig)
           (repo : string) (groups : Multi.Groups) (tag : string)
  : Multi.Groups :=
  match filedUnder client purgeConfig repo tag with
  | Some selectedTagConfig =>
      Multi.appendTo selectedTagConfig (tagDataOf client repo tag) groups
  | None => groups
  end.

(** The tag is filed under the tag rule [k]. *)
Definition isFiledUnder {re : RegexpLib} (client : Registry.Client)
           (purgeConfig : Multi.PurgeConfig) (repo : string)
           (k : Multi.TagConfig) (tag : string) : bool :=
  match filedUnder client purgeConfig repo tag with
  | Some selectedTagConfig => Multi.TagConfig_eqb k selectedTagConfig
  | None => false
  end.

(** The tag is filed under some tag rule. *)
Definition isFiled {re : RegexpLib} (client : Registry.Client)
           (purgeConfig : Multi.PurgeConfig) (repo tag : string) : bool :=
  match filedUnder client purgeConfig repo tag with
  | Some _ => true
  | None => false
  end.

(** A tag rule matches the tag but its manifest is missing. *)
Definition lacksManifest {re : RegexpLib} (client : Registry.Client)
           (purgeConfig : Multi.PurgeConfig) (repo tag : string) : bool :=
  match Multi.selectTagConfig tag (Multi.Tags purgeConfig) with
  | Multi.TagMatch _ => negb (hasManifest client repo tag)
  | _ => false
  end.

(** The keys of the map stay distinct and no group is empty. *)
Definition wellGrouped (m : Multi.Groups) : Prop :=
  NoDup (map fst m) /\ Forall (fun entry => snd entry <> []) m.

(** The age in days of an elapsed duration: [int(d.Hours() / 24)]. *)
Definition daysOf (d : Duration) : Z :=
  int_of_float64 (fdiv (Hours d) (float64_of_int 24)).

(** Whole days from 0 to [n - 1], to check the age computation on. *)
Definition wholeDays (n : nat) : list Z := map Z.of_nat (seq 0 n).

(** * Properties *)

(** ** Lengths as Go integers *)

Lemma len_nonneg {A : Type} (s : list A) : 0 <= len s.
Proof. unfold len. lia. Qed.

Lemma len_app {A : Type} (s t : list A) : len (s ++ t) = len s + len t.
Proof. unfold len. rewrite length_app. lia. Qed.

Lemma len_map {A B : Type} (f : A -> B) (s : list A) : len (map f s) = len s.
Proof. unfold len. now rewrite length_map. Qed.

Lemma len_nil_inv {A : Type} (s : list A) : len s <= 0 -> s = [].
Proof. destruct s; [reflexivity | unfold len; simpl; lia]. Qed.

Lemma len_firstn {A : Type} (k : Z) (s : list A) :
  0 <= k <= len s -> len (firstn (Z.to_nat k) s) = k.
Proof. unfold len. intros H. rewrite length_firstn. lia. Qed.

Lemma len_skipn {A : Type} (k : Z) (s : list A) :
  0 <= k <= len s -> len (skipn (Z.to_nat k) s) = len s - k.
Proof. unfold len. intros H. rewrite length_skipn. lia. Qed.

Lemma len_Permutation {A : Type} (s t : list A) :
  Permutation s t -> len s = len t.
Proof. intros H. unfold len. now rewrite (Permutation_length H). Qed.

(** ** The retention steps *)

Section RetentionFacts.

Variable now : Time.
Variable keepDays keepCount : Z.

Local Abbreviation stales := (staleNames now keepDays).
Local Abbreviation freshes := (freshNames now keepDays).
Local Abbreviation decided := (decide now keepDays keepCount).

Lemma filterByRetention_eq (tags : timeSlice) (purge keep : list string) :
  filterByRetention now keepDays tags purge keep
  = (purge ++ stales tags, keep ++ freshes tags).
Proof.
  unfold staleNames, freshNames.
  revert purge keep.
  induction tags as [|tag rest IH]; intros purge keep; simpl.
  - now rewrite !app_nil_r.
  - destruct (stale now keepDays tag); simpl; rewrite IH;
      now rewrite <- app_assoc.
Qed.

Lemma fresh_stale_Permutation (tags : timeSlice) :
  Permutation (freshes tags ++ stales tags) (map name tags).
Proof.
  unfold staleNames, freshNames.
  induction tags as [|tag rest IH]; simpl.
  - constructor.
  - destruct (stale now keepDays tag); simpl.
    + apply Permutation_sym, Permutation_cons_app, Permutation_sym, IH.
    + now constructor.
Qed.

Lemma len_fresh_stale (tags : timeSlice) :
  len (freshes tags) + len (stales tags) = len tags.
Proof.
  rewrite <- len_app, (len_Permutation _ _ (fresh_stale_Permutation tags)).
  apply len_map.
Qed.

(** Wherever a slice of [purge] is taken, its bounds are in range. *)
Lemma rescue_bounds (total : Z) (purge : list string) :
  len purge <= total ->
  (total - len purge <? keepCount) = true ->
  (keepCount <? len purge) = true ->
  0 <= keepCount <= len purge.
Proof. intros Hle H1 H2. apply Z.ltb_lt in H1, H2. lia. Qed.

Lemma decide_bounds (tags : timeSlice) :
  (len tags - len (stales tags) <? keepCount) = true ->
  (keepCount <? len (stales tags)) = true ->
  0 <= keepCount <= len (stales tags).
Proof.
  apply rescue_bounds. pose proof (len_fresh_stale tags).
  pose proof (len_nonneg (freshes tags)). lia.
Qed.

Lemma decide_Permutation (tags : timeSlice) :
  Permutation (keepTags (decided tags) ++ purgeTags (decided tags))
              (map name tags).
Proof.
  rewrite <- (fresh_stale_Permutation tags).
  unfold decide, keepMinimalCount.
  destruct (_ <? keepCount); [destruct (keepCount <? _)|]; simpl.
  - now rewrite <- app_assoc, firstn_skipn.
  - now rewrite app_nil_r.
  - reflexivity.
Qed.

Lemma decide_len (tags : timeSlice) :
  len (keepTags (decided tags)) + len (purgeTags (decided tags)) = len tags.
Proof.
  rewrite <- len_app, (len_Permutation _ _ (decide_Permutation tags)).
  apply len_map.
Qed.

Lemma decide_floor (tags : timeSlice) :
  0 <= keepCount ->
  Z.min keepCount (len tags) <= len (keepTags (decided tags)).
Proof.
  intros Hk. pose proof (len_fresh_stale tags) as Hsum.
  pose proof (len_nonneg (freshes tags)).
  unfold decide, keepMinimalCount.
  destruct (_ <? keepCount) eqn:Hlow;
    [destruct (keepCount <? _) eqn:Hmany|]; simpl.
  - rewrite len_app, len_firstn by now apply decide_bounds. lia.
  - rewrite len_app. lia.
  - apply Z.ltb_ge in Hlow. lia.
Qed.

Lemma decide_small (tags : timeSlice) :
  len tags <= keepCount ->
  purgeTags (decided tags) = []
  /\ keepTags (decided tags) = freshes tags ++ stales tags.
Proof.
  intros Hsmall. pose proof (len_fresh_stale tags) as Hsum.
  pose proof (len_nonneg (freshes tags)).
  pose proof (len_nonneg (stales tags)).
  unfold decide, keepMinimalCount.
  destruct (_ <? keepCount) eqn:Hlow;
    [destruct (keepCount <? _) eqn:Hmany|]; simpl.
  - apply Z.ltb_lt in Hmany. lia.
  - split; reflexivity.
  - apply Z.ltb_ge in Hlow.
    assert (Hnone : stales tags = []) by (apply len_nil_inv; lia).
    rewrite Hnone, app_nil_r. split; reflexivity.
Qed.

End RetentionFacts.

Lemma decide_no_floor (now : Time) (keepDays : Z) (tags : timeSlice) :
  decide now keepDays 0 tags
  = mkDecision (freshNames now keepDays tags) (staleNames now keepDays tags).
Proof.
  unfold decide, keepMinimalCount.
  pose proof (len_fresh_stale now keepDays tags).
  pose proof (len_nonneg (freshNames now keepDays tags)).
  destruct (_ <? 0) eqn:Hlow; [apply Z.ltb_lt in Hlow; lia | reflexivity].
Qed.

Lemma Single_partition_decide {so : SortLib} (keepDays keepCount : Z)
      (now : Time) (tagsFromRepo : timeSlice) :
  Single.partition keepDays keepCount now tagsFromRepo
  = decide now keepDays keepCount (Sort tagsFromRepo).
Proof.
  unfold Single.partition. now rewrite filterByRetention_eq.
Qed.

Lemma Multi_partition_decide (keepDays keepCount : Z) (now : Time)
      (tags : timeSlice) :
  Multi.partition keepDays keepCount now tags
  = decide now keepDays keepCount tags.
Proof.
  unfold Multi.partition. now rewrite filterByRetention_eq.
Qed.

(** ** Sorting newest first *)

Lemma notOlder_iff (a b : tagData) : notOlder a b <-> created b <= created a.
Proof. unfold notOlder, Less, After. apply Z.ltb_ge. Qed.

Lemma newer_iff (a b : tagData) : newer a b <-> created b < created a.
Proof. unfold newer, Less, After. apply Z.ltb_lt. Qed.

Lemma StronglySorted_filter {A : Type} (R : A -> A -> Prop) (f : A -> bool)
      (l : list A) :
  StronglySorted R l -> StronglySorted R (filter f l).
Proof.
  induction 1 as [|a l Hs IH Ha]; simpl; [constructor|].
  destruct (f a); [|assumption].
  constructor; [assumption|].
  rewrite Forall_forall in *. intros x Hx.
  apply filter_In in Hx. now apply Ha.
Qed.

(** In a sorted list, everything in a prefix stands before everything in
    the rest. *)
Lemma StronglySorted_firstn_skipn {A : Type} (R : A -> A -> Prop) (k : nat)
      (l : list A) :
  StronglySorted R l ->
  forall x y, In x (firstn k l) -> In y (skipn k l) -> R x y.
Proof.
  intros Hs. revert k.
  induction Hs as [|a l Hs IH Ha]; intros k x y Hx Hy.
  - destruct k; contradiction.
  - destruct k as [|k]; simpl in Hx, Hy; [contradiction|].
    destruct Hx as [<-|Hx].
    + rewrite Forall_forall in Ha. apply Ha.
      rewrite <- (firstn_skipn k l). apply in_or_app. now right.
    + now apply (IH k).
Qed.

(** A slice whose tags are strictly newest first has one sorted
    arrangement only. *)
Lemma sorted_arrangement_unique (l l' : timeSlice) :
  StronglySorted newer l ->
  Permutation l' l ->
  StronglySorted notOlder l' ->
  l' = l.
Proof.
  intros Hl. revert l'.
  induction Hl as [|a l Hl IH Ha]; intros l' Hp Hs.
  - now apply Permutation_sym, Permutation_nil in Hp.
  - destruct l' as [|b l'].
    + apply Permutation_nil in Hp. discriminate.
    + assert (Hba : b = a).
      { assert (Hb : In b (a :: l))
          by (apply (Permutation_in _ Hp); now left).
        destruct Hb as [Hb|Hb]; [now symmetry|].
        rewrite Forall_forall in Ha. apply Ha, newer_iff in Hb.
        assert (Hin : In a (b :: l'))
          by (apply (Permutation_in _ (Permutation_sym Hp)); now left).
        destruct Hin as [Hin|Hin]; [subst; lia|].
        inversion Hs as [|? ? _ Hall]; subst.
        rewrite Forall_forall in Hall. apply Hall, notOlder_iff in Hin. lia. }
      subst b. f_equal. apply IH.
      * now apply Permutation_cons_inv in Hp.
      * now inversion Hs.
Qed.

Lemma Sort_sorted_input (so : SortLib) (p : timeSlice) :
  SortsByLess so -> StronglySorted newer p -> Sort p = p.
Proof.
  intros Hso Hp. destruct (Hso p).
  now apply sorted_arrangement_unique.
Qed.

(** The insertion sort of the examples is a [sort.Sort]. *)
Lemma insertSorted_Permutation (d : tagData) (p : timeSlice) :
  Permutation (Examples.insertSorted d p) (d :: p).
Proof.
  induction p as [|x rest IH]; simpl; [reflexivity|].
  destruct (Less d x); [reflexivity|].
  rewrite IH. apply perm_swap.
Qed.

Lemma insertionSort_Permutation (p : timeSlice) :
  Permutation (Examples.insertionSort p) p.
Proof.
  induction p as [|d rest IH]; simpl; [constructor|].
  rewrite insertSorted_Permutation. now constructor.
Qed.

Lemma insertSorted_Sorted (d : tagData) (p : timeSlice) :
  StronglySorted notOlder p ->
  StronglySorted notOlder (Examples.insertSorted d p).
Proof.
  induction 1 as [|x rest Hs IH Hx]; simpl.
  - repeat constructor.
  - destruct (Less d x) eqn:Hd.
    + constructor; [now constructor|].
      apply newer_iff in Hd.
      constructor; [apply notOlder_iff; lia|].
      rewrite Forall_forall in *. intros y Hy.
      apply Hx, notOlder_iff in Hy. apply notOlder_iff. lia.
    + constructor; [assumption|].
      rewrite Forall_forall in *. intros y Hy.
      apply (Permutation_in _ (insertSorted_Permutation d rest)) in Hy.
      destruct Hy as [<-|Hy]; [exact Hd | now apply Hx].
Qed.

Lemma insertionSort_Sorted (p : timeSlice) :
  StronglySorted notOlder (Examples.insertionSort p).
Proof.
  induction p as [|d rest IH]; simpl;
    [constructor | now apply insertSorted_Sorted].
Qed.

Lemma insertionSort_SortsByLess : SortsByLess Examples.insertionSortLib.
Proof.
  intros p. split;
    [apply insertionSort_Permutation | apply insertionSort_Sorted].
Qed.

Lemma literal_DotStarMatchesAll :
  DotStarMatchesAll Examples.literalRegexpLib.
Proof.
  exists ".*". split; [reflexivity|].
  intros s. unfold FindStringIndex; simpl. discriminate.
Qed.

(** ** The partition of one group *)

Lemma NoDup_app_disjoint {A : Type} (l1 l2 : list A) (a : A) :
  NoDup (l1 ++ l2) -> In a l1 -> ~ In a l2.
Proof.
  induction l1 as [|x l1 IH]; simpl; intros Hnd Hin; [contradiction|].
  inversion Hnd as [|? ? Hx Hrest]; subst.
  destruct Hin as [->|Hin]; [|now apply IH].
  intros Ha. apply Hx, in_or_app. now right.
Qed.

Lemma Permutation_CompleteSplit (group : timeSlice) (d : Decision) :
  Permutation (keepTags d ++ purgeTags d) (map name group) ->
  CompleteSplit group d.
Proof.
  intros Hp. repeat split.
  - rewrite <- len_app, (len_Permutation _ _ Hp). apply len_map.
  - assumption.
  - intros tag Hin. apply (Permutation_in _ Hp), in_or_app, Hin.
  - intros Hnd tag Hin.
    apply (Permutation_NoDup (Permutation_sym Hp)) in Hnd.
    apply (Permutation_in _ (Permutation_sym Hp)), in_app_or in Hin.
    destruct Hin as [Hk|Hq].
    + left. split; [assumption|]. now apply (NoDup_app_disjoint _ _ _ Hnd).
    + right. split; [|assumption].
      intros Hk. now apply (NoDup_app_disjoint _ _ _ Hnd Hk).
Qed.

(** C2: for every group, thresholds and current time, the decision of
    either variant is a complete split of the group: the sizes of the keep
    list and of the purge list add up to the size of the group, the two
    lists together hold the tags of the group, each as often as the group
    does, and nothing else; where the tag names of the group are distinct,
    each one is in exactly one of the two lists. *)
Theorem partition_complete_split (so : SortLib) (keepDays keepCount : Z)
        (now : Time) (group : timeSlice) :
  SortsByLess so ->
  CompleteSplit group (Single.partition keepDays keepCount now group)
  /\ CompleteSplit group (Multi.partition keepDays keepCount now group).
Proof.
  intros Hso. split; apply Permutation_CompleteSplit.
  - rewrite Single_partition_decide, decide_Permutation.
    apply Permutation_map, Hso.
  - rewrite Multi_partition_decide. apply decide_Permutation.
Qed.

Lemma partition_complete_split_witness :
  CompleteSplit (Examples.scenarioGroup Examples.newYear)
    (@Single.partition Examples.insertionSortLib 30 2 Examples.newYear
                       (Examples.scenarioGroup Examples.newYear))
  /\ CompleteSplit (Examples.scenarioGroup Examples.newYear)
       (Multi.partition 30 2 Examples.newYear
                        (Examples.scenarioGroup Examples.newYear)).
Proof.
  apply (partition_complete_split Examples.insertionSortLib).
  exact insertionSort_SortsByLess.
Defined.

(** C3: for every group, every non-negative keepCount and every current
    time, the keep list of either variant has at least
    min(keepCount, size of the group) entries. *)
Theorem partition_keeps_floor (so : SortLib) (keepDays keepCount : Z)
        (now : Time) (group : timeSlice) :
  SortsByLess so ->
  0 <= keepCount ->
  Z.min keepCount (len group)
  <= len (keepTags (Single.partition keepDays keepCount now group))
  /\ Z.min keepCount (len group)
     <= len (keepTags (Multi.partition keepDays keepCount now group)).
Proof.
  intros Hso Hk. split.
  - rewrite Single_partition_decide.
    rewrite <- (len_Permutation _ _ (proj1 (Hso group))).
    now apply decide_floor.
  - rewrite Multi_partition_decide. now apply decide_floor.
Qed.

Lemma partition_keeps_floor_witness :
  Z.min 4 (len (Examples.scenarioGroup Examples.newYear))
  <= len (keepTags (@Single.partition Examples.insertionSortLib 30 4
                      Examples.newYear
                      (Examples.scenarioGroup Examples.newYear)))
  /\ Z.min 4 (len (Examples.scenarioGroup Examples.newYear))
     <= len (keepTags (Multi.partition 30 4 Examples.newYear
                         (Examples.scenarioGroup Examples.newYear))).
Proof.
  apply (partition_keeps_floor Examples.insertionSortLib).
  - exact insertionSort_SortsByLess.
  - lia.
Defined.

Lemma filter_Permutation {A : Type} (f : A -> bool) (l l' : list A) :
  Permutation l l' -> Permutation (filter f l) (filter f l').
Proof.
  induction 1 as [|x l l' _ IH|x y l|l l' l'' _ IH1 _ IH2]; simpl.
  - constructor.
  - destruct (f x); [now constructor | assumption].
  - destruct (f x), (f y); try reflexivity. apply perm_swap.
  - now rewrite IH1.
Qed.

(** C4: with keepCount = 0 nothing is rescued.  In either variant the
    purge list holds exactly the tags whose age in days exceeds keepDays
    and the keep list the remaining ones, in the order in which the
    variant filters them. *)
Theorem partition_no_floor (so : SortLib) (keepDays : Z) (now : Time)
        (group : timeSlice) :
  SortsByLess so ->
  let aged := fun tag => keepDays <? delta now tag in
  let young := fun tag => negb (keepDays <? delta now tag) in
  (Single.partition keepDays 0 now group
   = mkDecision (map name (filter young (Sort group)))
                (map name (filter aged (Sort group)))
   /\ Permutation (purgeTags (Single.partition keepDays 0 now group))
                  (map name (filter aged group))
   /\ Permutation (keepTags (Single.partition keepDays 0 now group))
                  (map name (filter young group)))
  /\ Multi.partition keepDays 0 now group
     = mkDecision (map name (filter young group))
                  (map name (filter aged group)).
Proof.
  intros Hso aged young. split; [split; [|split]|].
  - now rewrite Single_partition_decide, decide_no_floor.
  - rewrite Single_partition_decide, decide_no_floor. simpl.
    apply Permutation_map, filter_Permutation, Hso.
  - rewrite Single_partition_decide, decide_no_floor. simpl.
    apply Permutation_map, filter_Permutation, Hso.
  - now rewrite Multi_partition_decide, decide_no_floor.
Qed.

(** C10: for every group of at most keepCount tags and every current
    time, either variant purges nothing and keeps every tag of the group,
    whatever keepDays and the ages are. *)
Theorem partition_small_group (so : SortLib) (keepDays keepCount : Z)
        (now : Time) (group : timeSlice) :
  SortsByLess so ->
  len group <= keepCount ->
  (purgeTags (Single.partition keepDays keepCount now group) = []
   /\ Permutation (keepTags (Single.partition keepDays keepCount now group))
                  (map name group))
  /\ (purgeTags (Multi.partition keepDays keepCount now group) = []
      /\ Permutation (keepTags (Multi.partition keepDays keepCount now group))
                     (map name group)).
Proof.
  intros Hso Hsmall. split.
  - rewrite Single_partition_decide.
    destruct (decide_small now keepDays keepCount (Sort group)) as [Hp Hk].
    { now rewrite (len_Permutation _ _ (proj1 (Hso group))). }
    split; [assumption|].
    rewrite Hk, fresh_stale_Permutation. apply Permutation_map, Hso.
  - rewrite Multi_partition_decide.
    destruct (decide_small now keepDays keepCount group Hsmall) as [Hp Hk].
    split; [assumption|].
    rewrite Hk. apply fresh_stale_Permutation.
Qed.

Lemma partition_no_floor_witness :
  Multi.partition 30 0 Examples.newYear
                  (Examples.scenarioGroup Examples.newYear)
  = mkDecision ["t1"; "t10"] ["t40"; "t90"; "t200"].
Proof.
  destruct (partition_no_floor Examples.insertionSortLib 30 Examples.newYear
              (Examples.scenarioGroup Examples.newYear)
              insertionSort_SortsByLess) as [_ HM].
  rewrite HM. vm_compute. reflexivity.
Defined.

Lemma partition_small_group_witness :
  len (Examples.scenarioGroup Examples.newYear) <= 5
  /\ purgeTags (Multi.partition 30 5 Examples.newYear
                  (Examples.scenarioGroup Examples.newYear)) = [].
Proof.
  assert (Hsmall : len (Examples.scenarioGroup Examples.newYear) <= 5)
    by (vm_compute; discriminate).
  split; [exact Hsmall|].
  apply (partition_small_group Examples.insertionSortLib 30 5 Examples.newYear
           (Examples.scenarioGroup Examples.newYear)
           insertionSort_SortsByLess Hsmall).
Defined.

(** ** The scenarios *)

(** Ages are measured from [now]: a tag created [age] days before [now]
    has the same [delta] whatever [now] is. *)
Lemma delta_aged (now : Time) (tag : string) (age : Z) :
  delta now (Examples.aged now tag age) = delta 0 (Examples.aged 0 tag age).
Proof.
  unfold delta, Examples.aged. cbn [created]. unfold Sub.
  replace (now - (now - age * Examples.day))
    with (0 - (0 - age * Examples.day)) by lia.
  reflexivity.
Qed.

Lemma stale_aged (now : Time) (keepDays : Z) (tag : string) (age : Z) :
  stale now keepDays (Examples.aged now tag age)
  = stale 0 keepDays (Examples.aged 0 tag age).
Proof. unfold stale. now rewrite delta_aged. Qed.

Lemma scenario_delta (now : Time) :
  map (delta now) (Examples.scenarioGroup now) = [1; 10; 40; 90; 200].
Proof.
  unfold Examples.scenarioGroup. cbn [map]. rewrite !(delta_aged now).
  vm_compute. reflexivity.
Qed.

Lemma scenario_staleNames (now : Time) (keepDays : Z) :
  staleNames now keepDays (Examples.scenarioGroup now)
  = staleNames 0 keepDays (Examples.scenarioGroup 0).
Proof.
  unfold staleNames, Examples.scenarioGroup. cbn [filter].
  rewrite !(stale_aged now).
  repeat match goal with
         | |- context [stale 0 keepDays ?t] => destruct (stale 0 keepDays t)
         end; reflexivity.
Qed.

Lemma scenario_freshNames (now : Time) (keepDays : Z) :
  freshNames now keepDays (Examples.scenarioGroup now)
  = freshNames 0 keepDays (Examples.scenarioGroup 0).
Proof.
  unfold freshNames, Examples.scenarioGroup. cbn [filter].
  rewrite !(stale_aged now).
  repeat match goal with
         | |- context [stale 0 keepDays ?t] => destruct (stale 0 keepDays t)
         end; reflexivity.
Qed.

Lemma scenario_decide (now : Time) (keepDays keepCount : Z) :
  decide now keepDays keepCount (Examples.scenarioGroup now)
  = decide 0 keepDays keepCount (Examples.scenarioGroup 0).
Proof.
  unfold decide. now rewrite scenario_staleNames, scenario_freshNames.
Qed.

Lemma scenarioGroup_sorted (now : Time) :
  StronglySorted newer (Examples.scenarioGroup now).
Proof.
  unfold Examples.scenarioGroup.
  repeat constructor; apply newer_iff; unfold Examples.aged; cbn [created];
    unfold Examples.day, Hour, Minute, Second, Nanosecond; lia.
Qed.

(** C1, as stated, fails: with keepDays = 30 and keepCount = 4 neither
    variant returns purge = {200}, keep = {1, 10, 40, 90} for the group
    aged 1, 10, 40, 90 and 200 days. *)
Lemma scenario_B_not_as_claimed :
  ~ scenarioB_claimed
      (@Single.partition Examples.insertionSortLib 30 4 Examples.newYear
                         (Examples.scenarioGroup Examples.newYear))
  /\ ~ scenarioB_claimed
         (Multi.partition 30 4 Examples.newYear
                          (Examples.scenarioGroup Examples.newYear)).
Proof.
  split; intros [Hp _]; vm_compute in Hp;
    apply Permutation_nil in Hp; discriminate.
Qed.

(** C1, amended: for the group aged 1, 10, 40, 90 and 200 days, keepDays =
    30 and keepCount = 4, the age rule keeps the two fresh tags and
    tentatively purges the three stale ones in the order 40, 90, 200; two
    kept tags are fewer than keepCount and three tentatively purged tags
    are not more than keepCount, so all three are rescued: purge = {} and
    keep = {1, 10, 40, 90, 200}, in both variants. *)
Theorem scenario_B_rescues_all (so : SortLib) (now : Time) :
  SortsByLess so ->
  let group := Examples.scenarioGroup now in
  (filterByRetention now 30 (Sort group) [] []
   = (["t40"; "t90"; "t200"], ["t1"; "t10"])
   /\ Single.partition 30 4 now group
      = mkDecision ["t1"; "t10"; "t40"; "t90"; "t200"] [])
  /\ (filterByRetention now 30 group [] []
      = (["t40"; "t90"; "t200"], ["t1"; "t10"])
      /\ Multi.partition 30 4 now group
         = mkDecision ["t1"; "t10"; "t40"; "t90"; "t200"] []).
Proof.
  intros Hso group.
  assert (Hfilter : filterByRetention now 30 group [] []
                    = (["t40"; "t90"; "t200"], ["t1"; "t10"])).
  { rewrite filterByRetention_eq. unfold group.
    rewrite scenario_staleNames, scenario_freshNames.
    vm_compute. reflexivity. }
  assert (Hdecide : decide now 30 4 group
                    = mkDecision ["t1"; "t10"; "t40"; "t90"; "t200"] []).
  { unfold group. rewrite scenario_decide. vm_compute. reflexivity. }
  assert (Hsort : Sort group = group)
    by (apply Sort_sorted_input; [exact Hso | apply scenarioGroup_sorted]).
  repeat split.
  - now rewrite Hsort.
  - now rewrite Single_partition_decide, Hsort.
  - assumption.
  - now rewrite Multi_partition_decide.
Qed.

Lemma scenario_B_rescues_all_witness :
  @Single.partition Examples.insertionSortLib 30 4 Examples.newYear
                    (Examples.scenarioGroup Examples.newYear)
  = mkDecision ["t1"; "t10"; "t40"; "t90"; "t200"] [].
Proof.
  apply (scenario_B_rescues_all Examples.insertionSortLib Examples.newYear
           insertionSort_SortsByLess).
Defined.

(** Scenario A, where the floor is already met, for comparison. *)
Lemma scenario_A (now : Time) :
  Multi.partition 30 2 now (Examples.scenarioGroup now)
  = mkDecision ["t1"; "t10"] ["t40"; "t90"; "t200"].
Proof.
  rewrite Multi_partition_decide, scenario_decide. vm_compute. reflexivity.
Qed.

(** ** Which tags the floor rescues *)

(** When the floor rescues [keepCount] of more tentatively purged tags, the
    decision is made of these three pieces of the order in which the tags
    were filtered. *)
Lemma decide_rescue (now : Time) (keepDays keepCount : Z) (tags : timeSlice) :
  len tags - len (staleNames now keepDays tags) < keepCount ->
  keepCount < len (staleNames now keepDays tags) ->
  let candidates := filter (stale now keepDays) tags in
  decide now keepDays keepCount tags
  = mkDecision
      (freshNames now keepDays tags
         ++ map name (firstn (Z.to_nat keepCount) candidates))
      (map name (skipn (Z.to_nat keepCount) candidates)).
Proof.
  intros Hlow Hmany candidates. unfold decide, keepMinimalCount.
  apply Z.ltb_lt in Hlow, Hmany. rewrite Hlow, Hmany.
  unfold staleNames. now rewrite firstn_map, skipn_map.
Qed.

(** X18: the variant with one tag rule filters the sorted slice, so the
    tags it rescues are the newest of the purge candidates: none of the
    tags left to purge was created after a rescued one. *)
Lemma Single_rescues_newest (so : SortLib) (keepDays keepCount : Z)
      (now : Time) (group : timeSlice) :
  SortsByLess so ->
  let candidates := filter (stale now keepDays) (Sort group) in
  len group - len candidates < keepCount ->
  keepCount < len candidates ->
  Single.partition keepDays keepCount now group
  = mkDecision
      (freshNames now keepDays (Sort group)
         ++ map name (firstn (Z.to_nat keepCount) candidates))
      (map name (skipn (Z.to_nat keepCount) candidates))
  /\ forall rescued purged,
       In rescued (firstn (Z.to_nat keepCount) candidates) ->
       In purged (skipn (Z.to_nat keepCount) candidates) ->
       created purged <= created rescued.
Proof.
  intros Hso candidates Hlow Hmany. destruct (Hso group) as [Hperm Hsorted].
  split.
  - rewrite Single_partition_decide. apply decide_rescue.
    + unfold staleNames. rewrite len_map, (len_Permutation _ _ Hperm).
      exact Hlow.
    + unfold staleNames. now rewrite len_map.
  - intros rescued purged Hr Hp. apply notOlder_iff.
    apply (StronglySorted_firstn_skipn notOlder (Z.to_nat keepCount)
             candidates); [|assumption|assumption].
    now apply StronglySorted_filter.
Qed.

(** C5 fails in the variant with a list of tag rules: it filters the group
    in the order of the registry's tag list.  For the group aged 1, 10, 40,
    90 and 200 days, listed oldest first, with keepDays = 5 and keepCount =
    2, the tags aged 200 and 90 days are rescued and the newer purge
    candidates aged 40 and 10 days are purged. *)
Theorem Multi_rescues_in_listed_order :
  let now := Examples.newYear in
  let d := Multi.partition 5 2 now (Examples.listedOldestFirst now) in
  let rescued := Examples.aged now "t200" 200 in
  let purged := Examples.aged now "t10" 10 in
  filterByRetention now 5 (Examples.listedOldestFirst now) [] []
  = (["t200"; "t90"; "t40"; "t10"], ["t1"])
  /\ d = mkDecision ["t1"; "t200"; "t90"] ["t40"; "t10"]
  /\ (stale now 5 rescued = true /\ In (name rescued) (keepTags d))
  /\ (stale now 5 purged = true /\ In (name purged) (purgeTags d))
  /\ created rescued < created purged.
Proof.
  vm_compute. repeat split; auto.
Qed.

(** The variant with one tag rule on the same input rescues the two newest
    candidates. *)
Lemma Single_rescues_newest_listed (so : SortLib) :
  SortsByLess so ->
  Single.partition 5 2 Examples.newYear
                   (Examples.listedOldestFirst Examples.newYear)
  = mkDecision ["t1"; "t10"; "t40"] ["t90"; "t200"].
Proof.
  intros Hso. rewrite Single_partition_decide.
  assert (Hsort : Sort (Examples.listedOldestFirst Examples.newYear)
                  = Examples.scenarioGroup Examples.newYear).
  { destruct (Hso (Examples.listedOldestFirst Examples.newYear)) as [Hp Hs].
    apply sorted_arrangement_unique;
      [apply scenarioGroup_sorted | | assumption].
    rewrite Hp. unfold Examples.listedOldestFirst.
    apply Permutation_sym, Permutation_rev. }
  rewrite Hsort. vm_compute. reflexivity.
Qed.

(** ** Traces and the loop over the catalog *)

Lemma deleteCalls_app (es es' : list Event) :
  deleteCalls (es ++ es') = deleteCalls es ++ deleteCalls es'.
Proof.
  induction es as [|e es IH]; simpl; [reflexivity|].
  destruct e; simpl; now rewrite ?IH.
Qed.

Lemma flat_map_nil {A B : Type} (l : list A) :
  flat_map (fun _ : A => @nil B) l = [].
Proof. induction l; simpl; auto. Qed.

Lemma append_each {A B : Type} (g : A -> B) (l : list A) (done : list B) :
  fold_left (fun done x => done ++ [g x]) l done = done ++ map g l.
Proof.
  revert done. induction l as [|x l IH]; intros done; simpl.
  - now rewrite app_nil_r.
  - now rewrite IH, <- app_assoc.
Qed.

(** The two nested loops call [f] once for every repository of the
    catalog, in order, whatever the earlier calls returned. *)
Lemma visit_all {B : Type} (f : string -> string -> B)
      (catalog : list (string * list string)) (done : list B) :
  fold_left
    (fun done entry =>
       fold_left (fun done repo => done ++ [f (fst entry) repo])
                 (snd entry) done)
    catalog done
  = done ++ map (fun visit => f (fst visit) (snd visit)) (visited catalog).
Proof.
  revert done. induction catalog as [|entry rest IH]; intros done; simpl.
  - now rewrite app_nil_r.
  - rewrite IH, append_each, map_app, map_map, <- app_assoc. reflexivity.
Qed.

Section SingleFacts.

Context {re : RegexpLib} {so : SortLib} {mf : ManifestLib}.
Variable client : Registry.Client.

Lemma Single_reports (purgeDryRun : bool) (keepDays keepCount : Z)
      (purgeTagsConfig : list Single.PurgeConfig) (now : Time) :
  reports (Single.PurgeOldTags client purgeDryRun keepDays keepCount
                               purgeTagsConfig now)
  = map (fun visit =>
           Single.analyzeRepo client (fst visit) (snd visit)
             (purgeTagsConfig ++ [Single.globalConfig keepDays keepCount])
             now purgeDryRun)
        (visited (Registry.Repositories client)).
Proof.
  exact (visit_all
           (fun namespace repo =>
              Single.analyzeRepo client namespace repo
                (purgeTagsConfig ++ [Single.globalConfig keepDays keepCount])
                now purgeDryRun)
           (Registry.Repositories client) []).
Qed.

Lemma Single_scanTags_deleteCalls (repo : string)
      (purgeConfig : Single.PurgeConfig) (tags : list string)
      (tagsFromRepo : timeSlice) (log : list Event) :
  deleteCalls (snd (Single.scanTags client repo purgeConfig tags
                                    tagsFromRepo log))
  = deleteCalls log.
Proof.
  revert tagsFromRepo log.
  induction tags as [|tag rest IH]; intros tagsFromRepo log; simpl;
    [reflexivity|].
  destruct (Compile _) as [r|]; simpl.
  - destruct (FindStringIndex r tag); [|apply IH].
    destruct (String.eqb _ _); rewrite IH; [|reflexivity].
    rewrite deleteCalls_app. simpl. apply app_nil_r.
  - rewrite deleteCalls_app. simpl. apply app_nil_r.
Qed.

Lemma Single_purgeLoop_calls (purgeDryRun : bool) (purgeTags : list string) :
  deleteCalls (Single.purgeLoop purgeDryRun purgeTags)
  = if purgeDryRun then [] else list_prod purgeTags purgeTags.
Proof.
  unfold Single.purgeLoop. destruct purgeDryRun.
  - now rewrite flat_map_nil.
  - generalize purgeTags at 1 4 as inner.
    induction purgeTags as [|repo rest IH]; intros inner; simpl;
      [reflexivity|].
    rewrite deleteCalls_app, IH. f_equal.
    induction inner as [|tag inner IHi]; simpl; [reflexivity|].
    now rewrite IHi.
Qed.

(** The decision of a repository does not depend on [purgeDryRun]. *)
Lemma Single_decision_any_mode (namespace repo : string)
      (purgeTagsConfig : list Single.PurgeConfig) (now : Time)
      (mode mode' : bool) :
  decision (Single.analyzeRepo client namespace repo purgeTagsConfig now mode)
  = decision (Single.analyzeRepo client namespace repo purgeTagsConfig now
                                 mode').
Proof.
  unfold Single.analyzeRepo.
  destruct (Single.selectConfig _ _); try reflexivity.
  destruct (len _ =? 0); try reflexivity.
  destruct (Single.scanTags _ _ _ _ _ _) as [[|tagsFromRepo] log];
    reflexivity.
Qed.

(** What [analyzeRepo] asks the registry to delete. *)
Lemma Single_analyzeRepo_calls (namespace repo : string)
      (purgeTagsConfig : list Single.PurgeConfig) (now : Time)
      (purgeDryRun : bool) :
  let report := Single.analyzeRepo client namespace repo purgeTagsConfig now
                                   purgeDryRun in
  deleteCalls (events report)
  = if purgeDryRun then []
    else list_prod (purgeTags (decision report))
                   (purgeTags (decision report)).
Proof.
  unfold Single.analyzeRepo.
  destruct (Single.selectConfig _ _); simpl;
    try (destruct purgeDryRun; reflexivity).
  destruct (len _ =? 0); simpl; try (destruct purgeDryRun; reflexivity).
  pose proof (Single_scanTags_deleteCalls (fullName namespace repo)
                purgeConfig (Registry.Tags client (fullName namespace repo))
                [] []) as Hlog.
  destruct (Single.scanTags _ _ _ _ _ _) as [[|tagsFromRepo] log];
    simpl in *.
  - rewrite Hlog. destruct purgeDryRun; reflexivity.
  - now rewrite deleteCalls_app, Hlog, Single_purgeLoop_calls.
Qed.

End SingleFacts.

Section MultiFacts.

Context {re : RegexpLib} {mf : ManifestLib}.
Variable client : Registry.Client.

Lemma Multi_reports (range : Multi.MapRange) (purgeDryRun : bool)
      (keepDays keepCount : Z) (purgeTagsConfig : list Multi.PurgeConfig)
      (now : Time) :
  reports (Multi.PurgeOldTags client range purgeDryRun keepDays keepCount
                              purgeTagsConfig now)
  = map (fun visit =>
           Multi.analyzeRepo client range (fst visit) (snd visit)
             (purgeTagsConfig ++ [Multi.globalConfig keepDays keepCount])
             now purgeDryRun)
        (visited (Registry.Repositories client)).
Proof.
  exact (visit_all
           (fun namespace repo =>
              Multi.analyzeRepo client range namespace repo
                (purgeTagsConfig ++ [Multi.globalConfig keepDays keepCount])
                now purgeDryRun)
           (Registry.Repositories client) []).
Qed.

Lemma Multi_scanTags_deleteCalls (repo : string)
      (purgeConfig : Multi.PurgeConfig) (tags : list string)
      (tagsFromRepo : Multi.Groups) (log : list Event) :
  deleteCalls (snd (Multi.scanTags client repo purgeConfig tags
                                   tagsFromRepo log))
  = deleteCalls log.
Proof.
  revert tagsFromRepo log.
  induction tags as [|tag rest IH]; intros tagsFromRepo log; simpl;
    [reflexivity|].
  destruct (Multi.selectTagConfig _ _); simpl.
  - rewrite deleteCalls_app. simpl. apply app_nil_r.
  - apply IH.
  - destruct (String.eqb _ _); rewrite IH; [|reflexivity].
    rewrite deleteCalls_app. simpl. apply app_nil_r.
Qed.

Lemma Multi_purgeLoop_calls (repo : string) (purgeDryRun : bool)
      (purgeTags : list string) :
  deleteCalls (Multi.purgeLoop repo purgeDryRun purgeTags)
  = if purgeDryRun then [] else map (pair repo) purgeTags.
Proof.
  unfold Multi.purgeLoop. destruct purgeDryRun.
  - now rewrite flat_map_nil.
  - induction purgeTags as [|tag rest IH]; simpl; [reflexivity|].
    now rewrite IH.
Qed.

(** The loop over the groups appends the decisions of the groups. *)
Lemma partitionGroups_eq (now : Time) (groups : Multi.Groups)
      (acc : Decision) :
  let decided := fun group : Multi.TagConfig * timeSlice =>
    Multi.partition (Multi.TagsKeepDays (fst group))
                    (Multi.TagsKeepCount (fst group)) now (snd group) in
  Multi.partitionGroups now groups acc
  = mkDecision
      (keepTags acc ++ flat_map (fun g => keepTags (decided g)) groups)
      (purgeTags acc ++ flat_map (fun g => purgeTags (decided g)) groups).
Proof.
  intros decided. revert acc.
  induction groups as [|[tagConfig tags] rest IH]; intros acc; simpl.
  - rewrite !app_nil_r. now destruct acc.
  - rewrite IH. simpl. now rewrite <- !app_assoc.
Qed.

Lemma partitionGroups_any_range (now : Time) (groups groups' : Multi.Groups) :
  Permutation groups groups' ->
  sameSets (Multi.partitionGroups now groups noDecision)
           (Multi.partitionGroups now groups' noDecision).
Proof.
  intros Hp. rewrite !partitionGroups_eq. split; simpl; now rewrite Hp.
Qed.

Lemma sameSets_refl (d : Decision) : sameSets d d.
Proof. split; reflexivity. Qed.

(** The tags kept and purged in a repository depend neither on
    [purgeDryRun] nor on the order in which [range] yields the groups. *)
Lemma Multi_decision_any_mode (range range' : Multi.MapRange)
      (namespace repo : string) (purgeTagsConfig : list Multi.PurgeConfig)
      (now : Time) (mode mode' : bool) :
  sameSets
    (decision (Multi.analyzeRepo client range namespace repo purgeTagsConfig
                                 now mode))
    (decision (Multi.analyzeRepo client range' namespace repo purgeTagsConfig
                                 now mode')).
Proof.
  unfold Multi.analyzeRepo.
  destruct (Multi.selectConfig _ _); try apply sameSets_refl.
  destruct (len _ =? 0); try apply sameSets_refl.
  destruct (Multi.scanTags _ _ _ _ _ _) as [[|tagsFromRepo] log]; simpl;
    try apply sameSets_refl.
  apply partitionGroups_any_range.
  rewrite (Multi.rangeOver_Permutation range),
    (Multi.rangeOver_Permutation range').
  reflexivity.
Qed.

Lemma Multi_decision_same_range (range : Multi.MapRange)
      (namespace repo : string) (purgeTagsConfig : list Multi.PurgeConfig)
      (now : Time) (mode mode' : bool) :
  decision (Multi.analyzeRepo client range namespace repo purgeTagsConfig
                              now mode)
  = decision (Multi.analyzeRepo client range namespace repo purgeTagsConfig
                                now mode').
Proof.
  unfold Multi.analyzeRepo.
  destruct (Multi.selectConfig _ _); try reflexivity.
  destruct (len _ =? 0); try reflexivity.
  destruct (Multi.scanTags _ _ _ _ _ _) as [[|tagsFromRepo] log];
    reflexivity.
Qed.

(** What [analyzeRepo] asks the registry to delete: each purged tag once,
    in the repository under analysis. *)
Lemma Multi_analyzeRepo_calls (range : Multi.MapRange)
      (namespace repo : string) (purgeTagsConfig : list Multi.PurgeConfig)
      (now : Time) (purgeDryRun : bool) :
  let report := Multi.analyzeRepo client range namespace repo purgeTagsConfig
                                  now purgeDryRun in
  deleteCalls (events report)
  = if purgeDryRun then []
    else map (pair (fullName namespace repo)) (purgeTags (decision report)).
Proof.
  unfold Multi.analyzeRepo.
  destruct (Multi.selectConfig _ _); simpl;
    try (destruct purgeDryRun; reflexivity).
  destruct (len _ =? 0); simpl; try (destruct purgeDryRun; reflexivity).
  pose proof (Multi_scanTags_deleteCalls (fullName namespace repo)
                purgeConfig (Registry.Tags client (fullName namespace repo))
                [] []) as Hlog.
  destruct (Multi.scanTags _ _ _ _ _ _) as [[|tagsFromRepo] log];
    simpl in *.
  - rewrite Hlog. destruct purgeDryRun; reflexivity.
  - now rewrite deleteCalls_app, Hlog, Multi_purgeLoop_calls.
Qed.

End MultiFacts.

Lemma deleteCalls_reports {A : Type} (f : A -> Report) (l : list A) :
  (forall x, deleteCalls (events (f x)) = []) ->
  deleteCalls (flat_map events (map f l)) = [].
Proof.
  intros Hf. induction l as [|x l IH]; simpl; [reflexivity|].
  now rewrite deleteCalls_app, Hf, IH.
Qed.

Lemma Forall2_map_same {A B : Type} (R : B -> B -> Prop) (f g : A -> B)
      (l : list A) :
  (forall x, R (f x) (g x)) -> Forall2 R (map f l) (map g l).
Proof. intros H. induction l; simpl; constructor; auto. Qed.

(** ** Dry run *)

Lemma Single_repoName {re : RegexpLib} {so : SortLib} {mf : ManifestLib}
      (client : Registry.Client) (namespace repo : string)
      (purgeTagsConfig : list Single.PurgeConfig) (now : Time) (mode : bool) :
  repoName (Single.analyzeRepo client namespace repo purgeTagsConfig now mode)
  = fullName namespace repo.
Proof.
  unfold Single.analyzeRepo.
  destruct (Single.selectConfig _ _); try reflexivity.
  destruct (len _ =? 0); try reflexivity.
  destruct (Single.scanTags _ _ _ _ _ _) as [[|tagsFromRepo] log];
    reflexivity.
Qed.

Lemma Multi_repoName {re : RegexpLib} {mf : ManifestLib}
      (client : Registry.Client) (range : Multi.MapRange)
      (namespace repo : string) (purgeTagsConfig : list Multi.PurgeConfig)
      (now : Time) (mode : bool) :
  repoName (Multi.analyzeRepo client range namespace repo purgeTagsConfig now
                              mode)
  = fullName namespace repo.
Proof.
  unfold Multi.analyzeRepo.
  destruct (Multi.selectConfig _ _); try reflexivity.
  destruct (len _ =? 0); try reflexivity.
  destruct (Multi.scanTags _ _ _ _ _ _) as [[|tagsFromRepo] log];
    reflexivity.
Qed.

(** C6: for every catalog, tags, timestamps, configuration and current
    time, a run with dryRun = true decides as the run with dryRun = false
    does, repository by repository, and calls deleteTag not once.  In the
    variant with one tag rule the decisions are equal; in the variant with a
    list of tag rules they hold the same tags whatever order the two runs
    visit the groups in, and are equal where it is the same order. *)
Theorem dry_run_same_decisions (re : RegexpLib) (so : SortLib)
        (mf : ManifestLib) (client : Registry.Client)
        (range range' : Multi.MapRange) (keepDays keepCount : Z)
        (configS : list Single.PurgeConfig)
        (configM : list Multi.PurgeConfig) (now : Time) :
  let dryS := Single.PurgeOldTags client true keepDays keepCount configS now in
  let wetS := Single.PurgeOldTags client false keepDays keepCount configS now in
  let dryM := Multi.PurgeOldTags client range true keepDays keepCount
                                 configM now in
  let wetM := Multi.PurgeOldTags client range' false keepDays keepCount
                                 configM now in
  let wetM' := Multi.PurgeOldTags client range false keepDays keepCount
                                  configM now in
  let outcome := fun r => (repoName r, decision r) in
  (map outcome (reports dryS) = map outcome (reports wetS)
   /\ deleteCalls (trace dryS) = [])
  /\ (Forall2 sameOutcome (reports dryM) (reports wetM)
      /\ map outcome (reports dryM) = map outcome (reports wetM')
      /\ deleteCalls (trace dryM) = []).
Proof.
  intros dryS wetS dryM wetM wetM' outcome.
  unfold dryS, wetS, dryM, wetM, wetM', trace.
  rewrite !Single_reports, !Multi_reports. simpl.
  repeat split.
  - rewrite !map_map. apply map_ext. intros visit. unfold outcome.
    now rewrite !Single_repoName,
      (Single_decision_any_mode client _ _ _ now true false).
  - apply deleteCalls_reports. intros visit.
    apply (Single_analyzeRepo_calls client _ _ _ now true).
  - apply Forall2_map_same. intros visit. split.
    + now rewrite !Multi_repoName.
    + apply Multi_decision_any_mode.
  - rewrite !map_map. apply map_ext. intros visit. unfold outcome.
    now rewrite !Multi_repoName,
      (Multi_decision_same_range client range _ _ _ now true false).
  - apply deleteCalls_reports. intros visit.
    apply (Multi_analyzeRepo_calls client range _ _ _ now true).
Qed.

(** Two groups visited in either order: the same tags are purged, listed
    in the order of the visit. *)
Lemma Multi_range_order_example :
  let run := fun range =>
    @Multi.PurgeOldTags Examples.literalRegexpLib Examples.appManifests
      Examples.appClient range true 30 0 [Examples.twoTagRules]
      Examples.newYear in
  map decision (reports (run Examples.inOrder))
  = [mkDecision [] ["v1"; "v2"]]
  /\ map decision (reports (run Examples.reversed))
     = [mkDecision [] ["v2"; "v1"]].
Proof. vm_compute. split; reflexivity. Qed.

(** ** The delete requests *)

(** C7 fails in the variant with one tag rule: its outer loop ranges over
    the purge list under the name [repo], so every purged tag is used as
    the repository of a delete, once for every purged tag.  With the tags
    v1 and v2 of repository app purged, four deletes are issued and none
    is addressed to app. *)
Theorem Single_deletes_in_tag_named_repositories :
  let run := @Single.PurgeOldTags Examples.literalRegexpLib
               Examples.insertionSortLib Examples.appManifests
               Examples.appClient false 30 0 [] Examples.newYear in
  map (fun r => (repoName r, purgeTags (decision r))) (reports run)
  = [("app", ["v1"; "v2"])]
  /\ deleteCalls (trace run)
     = [("v1", "v1"); ("v1", "v2"); ("v2", "v1"); ("v2", "v2")].
Proof. vm_compute. split; reflexivity. Qed.

(** The variant with a list of tag rules, on the same input, deletes each
    purged tag once in its repository. *)
Lemma Multi_deletes_purged_tags :
  let run := @Multi.PurgeOldTags Examples.literalRegexpLib
               Examples.appManifests Examples.appClient Examples.inOrder
               false 30 0 [] Examples.newYear in
  map (fun r => (repoName r, purgeTags (decision r))) (reports run)
  = [("app", ["v1"; "v2"])]
  /\ deleteCalls (trace run) = [("app", "v1"); ("app", "v2")].
Proof. vm_compute. split; reflexivity. Qed.

(** ** Regular expressions that do not compile *)

Section RegexFacts.

Context {re : RegexpLib}.

Lemma Single_selectConfig_fails (repo : string)
      (purgeTagsConfig : list Single.PurgeConfig) :
  repoRegexFails Single.RepoRegex repo purgeTagsConfig <->
  Single.selectConfig repo purgeTagsConfig = Single.RegexError.
Proof.
  split.
  - intros (before & config & after & -> & Hbefore & Hfail).
    induction Hbefore as [|c before (r & Hc & Hm) _ IH]; simpl.
    + now rewrite Hfail.
    + now rewrite Hc, Hm.
  - induction purgeTagsConfig as [|c rest IH]; simpl; [discriminate|].
    destruct (Compile (Single.RepoRegex c)) as [r|] eqn:Hc.
    + destruct (FindStringIndex r repo) eqn:Hm; [discriminate|].
      intros H. destruct (IH H) as (before & config & after & -> & Hb & Hf).
      exists (c :: before), config, after. repeat split; [|assumption].
      constructor; [|assumption]. now exists r.
    + intros _. exists [], c, rest. repeat split; [constructor|assumption].
Qed.

Lemma Multi_selectConfig_fails (repo : string)
      (purgeTagsConfig : list Multi.PurgeConfig) :
  repoRegexFails Multi.RepoRegex repo purgeTagsConfig <->
  Multi.selectConfig repo purgeTagsConfig = Multi.RegexError.
Proof.
  split.
  - intros (before & config & after & -> & Hbefore & Hfail).
    induction Hbefore as [|c before (r & Hc & Hm) _ IH]; simpl.
    + now rewrite Hfail.
    + now rewrite Hc, Hm.
  - induction purgeTagsConfig as [|c rest IH]; simpl; [discriminate|].
    destruct (Compile (Multi.RepoRegex c)) as [r|] eqn:Hc.
    + destruct (FindStringIndex r repo) eqn:Hm; [discriminate|].
      intros H. destruct (IH H) as (before & config & after & -> & Hb & Hf).
      exists (c :: before), config, after. repeat split; [|assumption].
      constructor; [|assumption]. now exists r.
    + intros _. exists [], c, rest. repeat split; [constructor|assumption].
Qed.

Lemma Multi_selectTagConfig_fails (tag : string)
      (before after : list Multi.TagConfig) (tagConfig : Multi.TagConfig) :
  Forall (fun c => compilesNoMatch (Multi.TagsRegex c) tag) before ->
  Compile (Multi.TagsRegex tagConfig) = None ->
  Multi.selectTagConfig tag (before ++ tagConfig :: after)
  = Multi.TagRegexError.
Proof.
  intros Hbefore Hfail.
  induction Hbefore as [|c before (r & Hc & Hm) _ IH]; simpl.
  - now rewrite Hfail.
  - now rewrite Hc, Hm.
Qed.

Context {mf : ManifestLib}.
Variable client : Registry.Client.

(** The scan of the variant with one tag rule stops at the first tag. *)
Lemma Single_scanTags_fails (repo : string) (purgeConfig : Single.PurgeConfig)
      (tag : string) (rest : list string) (tagsFromRepo : timeSlice)
      (log : list Event) :
  Compile (Single.TagsRegex purgeConfig) = None ->
  Single.scanTags client repo purgeConfig (tag :: rest) tagsFromRepo log
  = (Single.TagRegexError, log ++ [WarnTagRegex repo tag]).
Proof. intros Hfail. simpl. now rewrite Hfail. Qed.

(** The scan of the variant with a list of tag rules stops at the first
    tag that reaches the pattern, which need not be the first tag. *)
Lemma Multi_scanTags_fails (repo : string) (purgeConfig : Multi.PurgeConfig)
      (tag : string) (tags : list string) :
  In tag tags ->
  Multi.selectTagConfig tag (Multi.Tags purgeConfig) = Multi.TagRegexError ->
  forall (tagsFromRepo : Multi.Groups) (log : list Event),
  exists log' tag',
    Multi.scanTags client repo purgeConfig tags tagsFromRepo log
    = (Multi.ScanAborted, log' ++ [WarnTagRegex repo tag']).
Proof.
  intros Hin Hfail.
  induction tags as [|tag0 rest IH]; intros tagsFromRepo log;
    [contradiction|].
  simpl.
  destruct (Multi.selectTagConfig tag0 (Multi.Tags purgeConfig)) eqn:Hsel.
  - now exists log, tag0.
  - apply IH. destruct Hin as [->|Hin]; [congruence | assumption].
  - assert (Hrest : In tag rest)
      by (destruct Hin as [->|Hin]; [congruence | assumption]).
    destruct (String.eqb _ _); now apply IH.
Qed.

End RegexFacts.

Lemma AbortedReport_intro (repo : string) (log : list Event) (e : Event) :
  deleteCalls log = [] ->
  isRegexWarning e = true ->
  AbortedReport (mkReport repo noDecision (log ++ [e])).
Proof.
  intros Hlog He. repeat split; simpl.
  - rewrite deleteCalls_app, Hlog. now destruct e.
  - exists e. split; [apply in_or_app; right; now left | assumption].
Qed.

(** C8: in every run and for every repository, when the loop over the
    repository rules or the loop over the tags reaches a regular expression
    that does not compile, the repository is given up: none of its tags is
    kept, purged or deleted, and the failure is logged as a warning.  The
    run goes on: its reports are those of every repository of the catalog,
    in order, each computed on its own. *)
Theorem regex_failure_aborts_repository (re : RegexpLib) (so : SortLib)
        (mf : ManifestLib) (client : Registry.Client)
        (range : Multi.MapRange) (purgeDryRun : bool) (keepDays keepCount : Z)
        (configS : list Single.PurgeConfig)
        (configM : list Multi.PurgeConfig) (now : Time) :
  let rulesS := configS ++ [Single.globalConfig keepDays keepCount] in
  let rulesM := configM ++ [Multi.globalConfig keepDays keepCount] in
  let analyzeS := fun visit : string * string =>
    Single.analyzeRepo client (fst visit) (snd visit) rulesS now purgeDryRun in
  let analyzeM := fun visit : string * string =>
    Multi.analyzeRepo client range (fst visit) (snd visit) rulesM now
                      purgeDryRun in
  (forall visit,
      let repo := fullName (fst visit) (snd visit) in
      repoRegexFails Single.RepoRegex repo rulesS
      \/ Single_tagRegexFails client repo rulesS ->
      AbortedReport (analyzeS visit))
  /\ (forall visit,
         let repo := fullName (fst visit) (snd visit) in
         repoRegexFails Multi.RepoRegex repo rulesM
         \/ Multi_tagRegexFails client repo rulesM ->
         AbortedReport (analyzeM visit))
  /\ reports (Single.PurgeOldTags client purgeDryRun keepDays keepCount
                                  configS now)
     = map analyzeS (visited (Registry.Repositories client))
  /\ reports (Multi.PurgeOldTags client range purgeDryRun keepDays keepCount
                                 configM now)
     = map analyzeM (visited (Registry.Repositories client)).
Proof.
  intros rulesS rulesM analyzeS analyzeM.
  split; [|split; [|split]].
  - intros [namespace name] repo. simpl in repo.
    unfold analyzeS, Single.analyzeRepo. simpl fst. simpl snd. fold repo.
    intros [Hrepo|(purgeConfig & Hsel & Htags & Hfail)].
    + apply Single_selectConfig_fails in Hrepo. rewrite Hrepo.
      now apply (AbortedReport_intro repo []).
    + rewrite Hsel.
      destruct (Registry.Tags client repo) as [|tag rest] eqn:Hlist;
        [contradiction|].
      replace (len (tag :: rest) =? 0) with false
        by (symmetry; apply Z.eqb_neq; unfold len; simpl; lia).
      rewrite Single_scanTags_fails by assumption.
      now apply (AbortedReport_intro repo []).
  - intros [namespace name] repo. simpl in repo.
    unfold analyzeM, Multi.analyzeRepo. simpl fst. simpl snd. fold repo.
    intros [Hrepo|(purgeConfig & before & tagConfig & after & tag
                   & Hsel & Hrules & Hin & Hbefore & Hfail)].
    + apply Multi_selectConfig_fails in Hrepo. rewrite Hrepo.
      now apply (AbortedReport_intro repo []).
    + rewrite Hsel.
      assert (Hlen : (len (Registry.Tags client repo) =? 0) = false).
      { apply Z.eqb_neq. destruct (Registry.Tags client repo);
          [contradiction | unfold len; simpl; lia]. }
      rewrite Hlen.
      assert (Hsel' : Multi.selectTagConfig tag (Multi.Tags purgeConfig)
                      = Multi.TagRegexError)
        by (rewrite Hrules; now apply Multi_selectTagConfig_fails).
      pose proof (Multi_scanTags_deleteCalls client repo purgeConfig
                    (Registry.Tags client repo) [] []) as Hcalls.
      destruct (Multi_scanTags_fails client repo purgeConfig tag
                  (Registry.Tags client repo) Hin Hsel' [] [])
        as (log' & tag' & Hscan).
      rewrite Hscan in *. simpl in Hcalls.
      rewrite deleteCalls_app in Hcalls.
      apply app_eq_nil in Hcalls as [Hcalls _].
      now apply AbortedReport_intro.
  - apply Single_reports.
  - apply Multi_reports.
Qed.

Lemma regex_failure_aborts_repository_witness :
  AbortedReport
    (@Single.analyzeRepo Examples.literalRegexpLib Examples.insertionSortLib
       Examples.appManifests Examples.appClient "library" "app"
       ([Examples.brokenRepoRule] ++ [Single.globalConfig 30 2])
       Examples.newYear false)
  /\ AbortedReport
       (@Single.analyzeRepo Examples.literalRegexpLib
          Examples.insertionSortLib Examples.appManifests Examples.appClient
          "library" "app"
          ([Examples.brokenTagRule] ++ [Single.globalConfig 30 2])
          Examples.newYear false)
  /\ AbortedReport
       (@Multi.analyzeRepo Examples.literalRegexpLib Examples.appManifests
          Examples.appClient Examples.inOrder "library" "app"
          ([Examples.brokenSecondTagRule] ++ [Multi.globalConfig 30 2])
          Examples.newYear false).
Proof.
  split; [|split].
  - apply (proj1 (regex_failure_aborts_repository
                    Examples.literalRegexpLib Examples.insertionSortLib
                    Examples.appManifests Examples.appClient Examples.inOrder
                    false 30 2 [Examples.brokenRepoRule] [] Examples.newYear)
                 ("library", "app")).
    left. exists [], Examples.brokenRepoRule, [Single.globalConfig 30 2].
    repeat split. constructor.
  - apply (proj1 (regex_failure_aborts_repository
                    Examples.literalRegexpLib Examples.insertionSortLib
                    Examples.appManifests Examples.appClient Examples.inOrder
                    false 30 2 [Examples.brokenTagRule] [] Examples.newYear)
                 ("library", "app")).
    right. exists Examples.brokenTagRule.
    split; [reflexivity | split; [discriminate | reflexivity]].
  - apply (proj1 (proj2 (regex_failure_aborts_repository
                    Examples.literalRegexpLib Examples.insertionSortLib
                    Examples.appManifests Examples.appClient Examples.inOrder
                    false 30 2 [] [Examples.brokenSecondTagRule]
                    Examples.newYear))
                 ("library", "app")).
    right.
    exists Examples.brokenSecondTagRule, [Multi.mkTagConfig "v1" 30 2],
      (Multi.mkTagConfig "(" 30 2), [], "v2".
    split; [reflexivity | split; [reflexivity | split; [|split]]].
    + right. now left.
    + constructor; [|constructor]. exists "v1". split; reflexivity.
    + reflexivity.
Defined.

(** ** The catch-all rule *)

Section CatchAll.

Context {re : RegexpLib}.
Hypothesis dotStar : DotStarMatchesAll re.

Lemma Single_selectConfig_catch_all (repo : string) (keepDays keepCount : Z)
      (purgeTagsConfig : list Single.PurgeConfig) :
  let rules := purgeTagsConfig ++ [Single.globalConfig keepDays keepCount] in
  Single.selectConfig repo rules <> Single.NoMatch
  /\ (Forall (fun c => Compile (Single.RepoRegex c) <> None) purgeTagsConfig ->
      exists purgeConfig, Single.selectConfig repo rules
                          = Single.Match purgeConfig)
  /\ (Forall (fun c => compilesNoMatch (Single.RepoRegex c) repo)
             purgeTagsConfig ->
      Single.selectConfig repo rules
      = Single.Match (Single.globalConfig keepDays keepCount)).
Proof.
  destruct dotStar as (any & Hany & Hall).
  induction purgeTagsConfig as [|c rest (IH1 & IH2 & IH3)]; simpl.
  - rewrite Hany. specialize (Hall repo).
    destruct (FindStringIndex any repo); [|contradiction].
    repeat split; [discriminate | intros _; eauto].
  - destruct (Compile (Single.RepoRegex c)) as [r|] eqn:Hc.
    + destruct (FindStringIndex r repo) eqn:Hm.
      * repeat split; [discriminate | intros _; eauto |].
        intros Hno. inversion Hno as [|? ? (r' & Hc' & Hm') _]; subst.
        congruence.
      * repeat split; [exact IH1 | |].
        -- intros Hok. apply IH2. now inversion Hok.
        -- intros Hno. apply IH3. now inversion Hno.
    + repeat split; [discriminate | |].
      * intros Hok. inversion Hok; subst. contradiction.
      * intros Hno. inversion Hno as [|? ? (r' & Hc' & _) _]; subst.
        congruence.
Qed.

Lemma Multi_selectConfig_catch_all (repo : string) (keepDays keepCount : Z)
      (purgeTagsConfig : list Multi.PurgeConfig) :
  let rules := purgeTagsConfig ++ [Multi.globalConfig keepDays keepCount] in
  Multi.selectConfig repo rules <> Multi.NoMatch
  /\ (Forall (fun c => Compile (Multi.RepoRegex c) <> None) purgeTagsConfig ->
      exists purgeConfig, Multi.selectConfig repo rules
                          = Multi.Match purgeConfig)
  /\ (Forall (fun c => compilesNoMatch (Multi.RepoRegex c) repo)
             purgeTagsConfig ->
      Multi.selectConfig repo rules
      = Multi.Match (Multi.globalConfig keepDays keepCount)).
Proof.
  destruct dotStar as (any & Hany & Hall).
  induction purgeTagsConfig as [|c rest (IH1 & IH2 & IH3)]; simpl.
  - rewrite Hany. specialize (Hall repo).
    destruct (FindStringIndex any repo); [|contradiction].
    repeat split; [discriminate | intros _; eauto].
  - destruct (Compile (Multi.RepoRegex c)) as [r|] eqn:Hc.
    + destruct (FindStringIndex r repo) eqn:Hm.
      * repeat split; [discriminate | intros _; eauto |].
        intros Hno. inversion Hno as [|? ? (r' & Hc' & Hm') _]; subst.
        congruence.
      * repeat split; [exact IH1 | |].
        -- intros Hok. apply IH2. now inversion Hok.
        -- intros Hno. apply IH3. now inversion Hno.
    + repeat split; [discriminate | |].
      * intros Hok. inversion Hok; subst. contradiction.
      * intros Hno. inversion Hno as [|? ? (r' & Hc' & _) _]; subst.
        congruence.
Qed.

End CatchAll.

(** C9: [PurgeOldTags] appends the rule with the pattern [.*] and the
    default keepDays and keepCount of the caller after the configured
    rules.  With it the loop over the repository rules never ends without
    a rule for any repository name; when all configured repository
    patterns compile it ends with a rule, and with the appended one when
    none of the configured patterns matches.  This holds in both variants,
    for a regexp library in which [.*] compiles and matches in every
    string. *)
Theorem catch_all_always_matches (re : RegexpLib) (repo : string)
        (keepDays keepCount : Z) (configS : list Single.PurgeConfig)
        (configM : list Multi.PurgeConfig) :
  DotStarMatchesAll re ->
  let rulesS := configS ++ [Single.globalConfig keepDays keepCount] in
  let rulesM := configM ++ [Multi.globalConfig keepDays keepCount] in
  (Single.selectConfig repo rulesS <> Single.NoMatch
   /\ (Forall (fun c => Compile (Single.RepoRegex c) <> None) configS ->
       exists purgeConfig,
         Single.selectConfig repo rulesS = Single.Match purgeConfig)
   /\ (Forall (fun c => compilesNoMatch (Single.RepoRegex c) repo) configS ->
       Single.selectConfig repo rulesS
       = Single.Match (Single.mkPurgeConfig ".*" ".*" keepDays keepCount)))
  /\ (Multi.selectConfig repo rulesM <> Multi.NoMatch
      /\ (Forall (fun c => Compile (Multi.RepoRegex c) <> None) configM ->
          exists purgeConfig,
            Multi.selectConfig repo rulesM = Multi.Match purgeConfig)
      /\ (Forall (fun c => compilesNoMatch (Multi.RepoRegex c) repo) configM ->
          Multi.selectConfig repo rulesM
          = Multi.Match
              (Multi.mkPurgeConfig
                 ".*" [Multi.mkTagConfig ".*" keepDays keepCount]))).
Proof.
  intros HdotStar rulesS rulesM. split.
  - apply (Single_selectConfig_catch_all HdotStar).
  - apply (Multi_selectConfig_catch_all HdotStar).
Qed.

Lemma catch_all_always_matches_witness :
  DotStarMatchesAll Examples.literalRegexpLib
  /\ @Single.selectConfig Examples.literalRegexpLib "team/app"
       ([Single.mkPurgeConfig "lib" ".*" 7 1] ++ [Single.globalConfig 30 2])
     = Single.Match (Single.mkPurgeConfig ".*" ".*" 30 2).
Proof.
  split; [exact literal_DotStarMatchesAll|].
  apply (catch_all_always_matches Examples.literalRegexpLib "team/app" 30 2
           [Single.mkPurgeConfig "lib" ".*" 7 1] []
           literal_DotStarMatchesAll).
  constructor; [|constructor].
  exists "lib". split; reflexivity.
Defined.

(** * Further properties *)

(** ** Rule resolution: the first match wins *)

Lemma found_true {re : RegexpLib} (r : Regexp) (s : string) :
  found r s = true <-> FindStringIndex r s <> None.
Proof.
  unfold found. destruct (FindStringIndex r s); split;
    congruence || discriminate.
Qed.

(** The three loops over rules have the same shape; these tactics prove
    their characterisations once. *)
Ltac first_match_forward rules :=
  let c0 := fresh "c0" in
  let rest := fresh "rest" in
  let IH := fresh "IH" in
  let r := fresh "r" in
  let Hc := fresh "Hc" in
  let Hm := fresh "Hm" in
  let H := fresh "H" in
  induction rules as [|c0 rest IH]; simpl; [discriminate|];
  match goal with
  | |- context [Compile ?pattern] =>
      destruct (Compile pattern) as [r|] eqn:Hc; [|discriminate]
  end;
  match goal with
  | |- context [FindStringIndex r ?s] =>
      destruct (FindStringIndex r s) eqn:Hm
  end;
  [ intros H; injection H as <-;
    exists [], rest; repeat split;
    [ constructor
    | exists r; split; [exact Hc | unfold found; now rewrite Hm] ]
  | intros H; destruct (IH H) as (before & after & -> & Hb & Hlast);
    exists (c0 :: before), after; repeat split;
    [ constructor; [now exists r | exact Hb] | exact Hlast ] ].

Ltac first_match_backward :=
  let before := fresh "before" in
  let after := fresh "after" in
  let Hb := fresh "Hb" in
  let r := fresh "r" in
  let Hc := fresh "Hc" in
  let Hf := fresh "Hf" in
  intros (before & after & -> & Hb & (r & Hc & Hf));
  induction Hb as [|? ? (? & Hc' & Hm') _ IH]; simpl;
  [ rewrite Hc; unfold found in Hf;
    destruct (FindStringIndex r _); [reflexivity | discriminate]
  | now rewrite Hc', Hm' ].

Ltac no_match_forward rules :=
  let c0 := fresh "c0" in
  let rest := fresh "rest" in
  let IH := fresh "IH" in
  let r := fresh "r" in
  let Hc := fresh "Hc" in
  let Hm := fresh "Hm" in
  let H := fresh "H" in
  induction rules as [|c0 rest IH]; simpl; [constructor|];
  match goal with
  | |- context [Compile ?pattern] =>
      destruct (Compile pattern) as [r|] eqn:Hc; [|discriminate]
  end;
  match goal with
  | |- context [FindStringIndex r ?s] =>
      destruct (FindStringIndex r s) eqn:Hm; [discriminate|]
  end;
  intros H; constructor; [now exists r | now apply IH].

Ltac no_match_backward :=
  induction 1 as [|? ? (? & Hc & Hm) _ IH]; simpl;
  [reflexivity | now rewrite Hc, Hm].

(** X1: a loop over rules ends with a rule exactly when that rule compiles
    and matches and every rule before it compiles and does not match;
    whatever stands after it, a pattern that does not compile included, is
    never looked at.  This holds for the repository rules of both variants
    and for the tag rules of the variant with a list of them. *)
Theorem first_matching_rule_wins (re : RegexpLib) (repo tag : string)
        (rulesS : list Single.PurgeConfig) (rulesM : list Multi.PurgeConfig)
        (tagRules : list Multi.TagConfig) :
  (forall c,
      Single.selectConfig repo rulesS = Single.Match c <->
      exists before after,
        rulesS = before ++ c :: after
        /\ Forall (fun c' => compilesNoMatch (Single.RepoRegex c') repo) before
        /\ compilesAndMatches (Single.RepoRegex c) repo)
  /\ (forall c,
         Multi.selectConfig repo rulesM = Multi.Match c <->
         exists before after,
           rulesM = before ++ c :: after
           /\ Forall (fun c' => compilesNoMatch (Multi.RepoRegex c') repo)
                     before
           /\ compilesAndMatches (Multi.RepoRegex c) repo)
  /\ (forall c,
         Multi.selectTagConfig tag tagRules = Multi.TagMatch c <->
         exists before after,
           tagRules = before ++ c :: after
           /\ Forall (fun c' => compilesNoMatch (Multi.TagsRegex c') tag)
                     before
           /\ compilesAndMatches (Multi.TagsRegex c) tag).
Proof.
  split; [|split]; intros c; split.
  - first_match_forward rulesS.
  - first_match_backward.
  - first_match_forward rulesM.
  - first_match_backward.
  - first_match_forward tagRules.
  - first_match_backward.
Qed.

(** X2: a loop over rules ends without a rule exactly when every rule
    compiles and none matches: the repository is skipped, or the tag is
    left out of every group.  Both variants, repository rules and tag
    rules. *)
Theorem no_rule_matches (re : RegexpLib) (repo tag : string)
        (rulesS : list Single.PurgeConfig) (rulesM : list Multi.PurgeConfig)
        (tagRules : list Multi.TagConfig) :
  (Single.selectConfig repo rulesS = Single.NoMatch <->
   Forall (fun c => compilesNoMatch (Single.RepoRegex c) repo) rulesS)
  /\ (Multi.selectConfig repo rulesM = Multi.NoMatch <->
      Forall (fun c => compilesNoMatch (Multi.RepoRegex c) repo) rulesM)
  /\ (Multi.selectTagConfig tag tagRules = Multi.TagNoMatch <->
      Forall (fun c => compilesNoMatch (Multi.TagsRegex c) tag) tagRules).
Proof.
  split; [|split]; split.
  - no_match_forward rulesS.
  - no_match_backward.
  - no_match_forward rulesM.
  - no_match_backward.
  - no_match_forward tagRules.
  - no_match_backward.
Qed.

(** ** Which tags a repository's decision covers *)

Lemma missingManifests_app (es es' : list Event) :
  missingManifests (es ++ es')
  = missingManifests es ++ missingManifests es'.
Proof.
  induction es as [|e es IH]; simpl; [reflexivity|].
  destruct e; simpl; now rewrite ?IH.
Qed.

Lemma missingManifests_errors (repo : string) (tags : list string) :
  missingManifests (map (ErrorMissingManifest repo) tags)
  = map (pair repo) tags.
Proof. induction tags; simpl; now rewrite ?IHtags. Qed.

Lemma missingManifests_deletes (es : list Event) :
  Forall (fun e => exists repo tag, e = DeleteTag repo tag) es ->
  missingManifests es = [].
Proof.
  induction 1 as [|e es (repo & tag & ->) _ IH]; simpl; auto.
Qed.

Lemma Single_purgeLoop_deletes (mode : bool) (purge : list string) :
  Forall (fun e => exists repo tag, e = DeleteTag repo tag)
         (Single.purgeLoop mode purge).
Proof.
  unfold Single.purgeLoop. apply Forall_forall. intros e He.
  apply in_flat_map in He as (repo & _ & He).
  destruct mode; [contradiction|].
  apply in_map_iff in He as (tag & <- & _). eauto.
Qed.

Lemma Multi_purgeLoop_deletes (repo : string) (mode : bool)
      (purge : list string) :
  Forall (fun e => exists repo tag, e = DeleteTag repo tag)
         (Multi.purgeLoop repo mode purge).
Proof.
  unfold Multi.purgeLoop. apply Forall_forall. intros e He.
  apply in_flat_map in He as (tag & _ & He).
  destruct mode; [contradiction|].
  destruct He as [<-|[]]. eauto.
Qed.

Lemma map_name_tagDataOf {mf : ManifestLib} (client : Registry.Client)
      (repo : string) (tags : list string) :
  map name (map (tagDataOf client repo) tags) = tags.
Proof. rewrite map_map. simpl. apply map_id. Qed.

Section SingleScan.

Context {re : RegexpLib} {so : SortLib} {mf : ManifestLib}.
Variable client : Registry.Client.

(** With a tag pattern that compiles, the scan collects the matching tags
    that have a manifest and logs the matching tags that have none. *)
Lemma Single_scanTags_compiled (repo : string)
      (purgeConfig : Single.PurgeConfig) (r : Regexp) (tags : list string)
      (tagsFromRepo : timeSlice) (log : list Event) :
  Compile (Single.TagsRegex purgeConfig) = Some r ->
  Single.scanTags client repo purgeConfig tags tagsFromRepo log
  = (Single.Collected
       (tagsFromRepo
          ++ map (tagDataOf client repo)
                 (filter (fun tag => found r tag
                                     && hasManifest client repo tag) tags)),
     log ++ map (ErrorMissingManifest repo)
                (filter (fun tag => found r tag
                                    && negb (hasManifest client repo tag))
                        tags)).
Proof.
  intros Hc. revert tagsFromRepo log.
  induction tags as [|tag rest IH]; intros tagsFromRepo log.
  - simpl. now rewrite !app_nil_r.
  - cbn [Single.scanTags filter]. rewrite Hc.
    assert (Hman : String.eqb (Registry.TagInfo client repo tag) ""
                   = negb (hasManifest client repo tag))
      by (unfold hasManifest; now rewrite negb_involutive).
    rewrite Hman.
    destruct (FindStringIndex r tag) eqn:Hm.
    + assert (Hf : found r tag = true) by (unfold found; now rewrite Hm).
      rewrite Hf.
      destruct (hasManifest client repo tag); cbn [andb negb map];
        rewrite IH, <- app_assoc; reflexivity.
    + assert (Hf : found r tag = false) by (unfold found; now rewrite Hm).
      rewrite Hf. cbn [andb]. apply IH.
Qed.

End SingleScan.

(** X3: in the variant with one tag rule, when the selected rule's tag
    pattern compiles, the decision of a repository is the partition, under
    that rule's keepDays and keepCount, of exactly the listed tags that
    match the pattern and have a manifest: these tags are split between
    keep and purge, and no other tag is kept or purged.  The matching tags
    without a manifest are logged as errors, each once, in listing
    order. *)
Theorem Single_decision_covers_matching_tags (re : RegexpLib) (so : SortLib)
        (mf : ManifestLib) (client : Registry.Client)
        (namespace repo : string) (rules : list Single.PurgeConfig)
        (now : Time) (mode : bool) (purgeConfig : Single.PurgeConfig)
        (r : Regexp) :
  SortsByLess so ->
  Single.selectConfig (fullName namespace repo) rules
  = Single.Match purgeConfig ->
  Compile (Single.TagsRegex purgeConfig) = Some r ->
  let full := fullName namespace repo in
  let tags := Registry.Tags client full in
  let considered :=
    filter (fun tag => found r tag && hasManifest client full tag) tags in
  let report := Single.analyzeRepo client namespace repo rules now mode in
  decision report
  = Single.partition (Single.TagsKeepDays purgeConfig)
                     (Single.TagsKeepCount purgeConfig) now
                     (map (tagDataOf client full) considered)
  /\ Permutation (keepTags (decision report) ++ purgeTags (decision report))
                 considered
  /\ (forall tag,
         In tag (keepTags (decision report))
         \/ In tag (purgeTags (decision report)) ->
         In tag tags /\ found r tag = true
         /\ hasManifest client full tag = true)
  /\ missingManifests (events report)
     = map (pair full)
           (filter (fun tag => found r tag
                               && negb (hasManifest client full tag)) tags).
Proof.
  intros Hso Hsel Hc full tags considered report.
  change (fullName namespace repo) with full in Hsel.
  assert (Hsplit : forall group,
             Permutation
               (keepTags (Single.partition (Single.TagsKeepDays purgeConfig)
                            (Single.TagsKeepCount purgeConfig) now group)
                  ++ purgeTags (Single.partition
                                  (Single.TagsKeepDays purgeConfig)
                                  (Single.TagsKeepCount purgeConfig) now group))
               (map name group)).
  { intros group. rewrite Single_partition_decide, decide_Permutation.
    apply Permutation_map, Hso. }
  assert (Hreport :
            decision report
            = Single.partition (Single.TagsKeepDays purgeConfig)
                (Single.TagsKeepCount purgeConfig) now
                (map (tagDataOf client full) considered)
            /\ missingManifests (events report)
               = map (pair full)
                   (filter (fun tag =>
                              found r tag
                              && negb (hasManifest client full tag)) tags)).
  { unfold report, Single.analyzeRepo. fold full. rewrite Hsel. fold tags.
    destruct (len tags =? 0) eqn:Hlen.
    - apply Z.eqb_eq in Hlen.
      assert (Hnil : tags = []) by (apply len_nil_inv; lia).
      unfold considered. rewrite Hnil. simpl. split; [|reflexivity].
      pose proof (Hsplit []) as Hp. simpl in Hp.
      apply Permutation_sym, Permutation_nil in Hp.
      apply app_eq_nil in Hp as [Hk Hq].
      destruct (Single.partition _ _ _ _); simpl in *. now subst.
    - rewrite (Single_scanTags_compiled client full purgeConfig r tags [] []
                 Hc). simpl.
      split; [reflexivity|].
      rewrite missingManifests_app, missingManifests_errors,
        (missingManifests_deletes _ (Single_purgeLoop_deletes _ _)).
      apply app_nil_r. }
  destruct Hreport as [Hd Hlog].
  assert (Hperm : Permutation (keepTags (decision report)
                                 ++ purgeTags (decision report)) considered).
  { rewrite Hd, Hsplit. now rewrite map_name_tagDataOf. }
  repeat split; try assumption.
  - assert (Hin : In tag considered)
      by (apply (Permutation_in _ Hperm), in_or_app; assumption).
    now apply filter_In in Hin.
  - assert (Hin : In tag considered)
      by (apply (Permutation_in _ Hperm), in_or_app; assumption).
    apply filter_In in Hin as [_ Hin]. now apply andb_prop in Hin.
  - assert (Hin : In tag considered)
      by (apply (Permutation_in _ Hperm), in_or_app; assumption).
    apply filter_In in Hin as [_ Hin]. now apply andb_prop in Hin.
Qed.

Lemma Single_decision_covers_matching_tags_witness :
  let report :=
    @Single.analyzeRepo Examples.literalRegexpLib Examples.insertionSortLib
      Examples.appManifests Examples.appClient "library" "app"
      [Single.globalConfig 30 0] Examples.newYear false in
  Permutation (keepTags (decision report) ++ purgeTags (decision report))
              ["v1"; "v2"].
Proof.
  apply (Single_decision_covers_matching_tags
           Examples.literalRegexpLib Examples.insertionSortLib
           Examples.appManifests Examples.appClient "library" "app"
           [Single.globalConfig 30 0] Examples.newYear false
           (Single.globalConfig 30 0) ".*"
           insertionSort_SortsByLess eq_refl eq_refl).
Defined.

(** ** The map of groups *)

Lemma TagConfig_eqb_eq (a b : Multi.TagConfig) :
  Multi.TagConfig_eqb a b = true <-> a = b.
Proof.
  unfold Multi.TagConfig_eqb. destruct a as [ra da ca], b as [rb db cb].
  simpl. rewrite !andb_true_iff, String.eqb_eq, !Z.eqb_eq.
  split; [intros [[-> ->] ->]; reflexivity | intros [= -> -> ->]; auto].
Qed.

Lemma TagConfig_eqb_refl (a : Multi.TagConfig) : Multi.TagConfig_eqb a a = true.
Proof. now apply TagConfig_eqb_eq. Qed.

Lemma TagConfig_eqb_neq (a b : Multi.TagConfig) :
  Multi.TagConfig_eqb a b = false <-> a <> b.
Proof.
  split.
  - intros H E. apply TagConfig_eqb_eq in E. congruence.
  - intros H. destruct (Multi.TagConfig_eqb a b) eqn:E; [|reflexivity].
    apply TagConfig_eqb_eq in E. contradiction.
Qed.

(** [m[k] = append(m[k], d)] followed by [m[k']]. *)
Lemma lookupGroup_appendTo (k k' : Multi.TagConfig) (d : tagData)
      (m : Multi.Groups) :
  lookupGroup k' (Multi.appendTo k d m)
  = if Multi.TagConfig_eqb k' k then lookupGroup k' m ++ [d]
    else lookupGroup k' m.
Proof.
  induction m as [|[k0 v] rest IH]; simpl.
  - destruct (Multi.TagConfig_eqb k' k); reflexivity.
  - destruct (Multi.TagConfig_eqb k k0) eqn:E0; simpl.
    + apply TagConfig_eqb_eq in E0. subst k0.
      destruct (Multi.TagConfig_eqb k' k); reflexivity.
    + destruct (Multi.TagConfig_eqb k' k0) eqn:E1; [|exact IH].
      apply TagConfig_eqb_eq in E1. subst k0.
      destruct (Multi.TagConfig_eqb k' k) eqn:E2; [|reflexivity].
      apply TagConfig_eqb_eq in E2. subst k'.
      rewrite TagConfig_eqb_refl in E0. discriminate.
Qed.

Lemma appendTo_contents (k : Multi.TagConfig) (d : tagData)
      (m : Multi.Groups) :
  Permutation (flat_map snd (Multi.appendTo k d m)) (flat_map snd m ++ [d]).
Proof.
  induction m as [|[k0 v] rest IH]; simpl; [reflexivity|].
  destruct (Multi.TagConfig_eqb k k0); simpl.
  - rewrite <- !app_assoc. apply Permutation_app_head, Permutation_app_comm.
  - rewrite IH. now rewrite app_assoc.
Qed.

Lemma appendTo_keys (k : Multi.TagConfig) (d : tagData) (m : Multi.Groups) :
  forall k', In k' (map fst (Multi.appendTo k d m)) ->
             k' = k \/ In k' (map fst m).
Proof.
  induction m as [|[k0 v] rest IH]; simpl; intros k' Hin.
  - destruct Hin as [<-|[]]. now left.
  - destruct (Multi.TagConfig_eqb k k0); simpl in Hin.
    + right. exact Hin.
    + destruct Hin as [<-|Hin]; [right; now left|].
      destruct (IH _ Hin); auto.
Qed.

Lemma appendTo_wellGrouped (k : Multi.TagConfig) (d : tagData)
      (m : Multi.Groups) :
  wellGrouped m -> wellGrouped (Multi.appendTo k d m).
Proof.
  intros [Hkeys Hfull]. induction m as [|[k0 v] rest IH]; simpl.
  - split; repeat constructor. simpl. intuition. discriminate.
  - simpl in Hkeys. apply NoDup_cons_iff in Hkeys as [Hk0 Hrest].
    apply Forall_cons_iff in Hfull as [Hv Hfull']. simpl in Hv.
    assert (Hkeys : NoDup (map fst ((k0, v) :: rest)))
      by (simpl; now constructor).
    destruct (Multi.TagConfig_eqb k k0) eqn:E; simpl.
    + split; [exact Hkeys|]. constructor; [|assumption].
      simpl. intros Hnil. now apply app_eq_nil in Hnil as [_ Hnil].
    + destruct (IH Hrest Hfull') as [IHk IHf].
      split; [|constructor; assumption].
      constructor; [|assumption].
      simpl. intros Hin. apply appendTo_keys in Hin as [Hsame|Hin];
        [|contradiction].
      subst k0. rewrite TagConfig_eqb_refl in E. discriminate.
Qed.

Lemma lookupGroup_In (k : Multi.TagConfig) (v : timeSlice) (m : Multi.Groups) :
  NoDup (map fst m) -> In (k, v) m -> lookupGroup k m = v.
Proof.
  induction m as [|[k0 v0] rest IH]; simpl; intros Hnd Hin; [contradiction|].
  inversion Hnd as [|? ? Hk0 Hrest]; subst.
  destruct Hin as [[= -> ->]|Hin].
  - now rewrite TagConfig_eqb_refl.
  - destruct (Multi.TagConfig_eqb k k0) eqn:E; [|now apply IH].
    apply TagConfig_eqb_eq in E. subst k0.
    exfalso. apply Hk0. apply in_map_iff. now exists (k, v).
Qed.

Section MultiScan.

Context {re : RegexpLib} {mf : ManifestLib}.
Variable client : Registry.Client.
Variable purgeConfig : Multi.PurgeConfig.
Variable repo : string.

Local Abbreviation rulesOf := (Multi.Tags purgeConfig).

(** Without a regex error the scan files every tag in turn. *)
Lemma Multi_scanTags_filed (tags : list string) (groups : Multi.Groups)
      (log : list Event) :
  Forall (fun tag => Multi.selectTagConfig tag rulesOf
                     <> Multi.TagRegexError) tags ->
  Multi.scanTags client repo purgeConfig tags groups log
  = (Multi.Collected (fold_left (fileTag client purgeConfig repo) tags groups),
     log ++ map (ErrorMissingManifest repo)
                (filter (lacksManifest client purgeConfig repo) tags)).
Proof.
  intros Hok. revert groups log.
  induction Hok as [|tag rest Htag _ IH]; intros groups log.
  - simpl. now rewrite app_nil_r.
  - cbn [Multi.scanTags filter fold_left].
    unfold fileTag at 2, filedUnder, lacksManifest at 1.
    assert (Hman : String.eqb (Registry.TagInfo client repo tag) ""
                   = negb (hasManifest client repo tag))
      by (unfold hasManifest; now rewrite negb_involutive).
    rewrite Hman.
    destruct (Multi.selectTagConfig tag rulesOf); [contradiction | apply IH |].
    destruct (hasManifest client repo tag); cbn [negb map];
      rewrite IH; [reflexivity | now rewrite <- app_assoc].
Qed.

(** A scan that ends with groups met no regex error. *)
Lemma Multi_scanTags_Collected (tags : list string)
      (groups groups' : Multi.Groups) (log log' : list Event) :
  Multi.scanTags client repo purgeConfig tags groups log
  = (Multi.Collected groups', log') ->
  Forall (fun tag => Multi.selectTagConfig tag rulesOf
                     <> Multi.TagRegexError) tags.
Proof.
  revert groups log.
  induction tags as [|tag rest IH]; intros groups log Hscan; [constructor|].
  simpl in Hscan.
  destruct (Multi.selectTagConfig tag rulesOf) eqn:Hsel; [discriminate| |].
  - constructor; [congruence | eapply IH, Hscan].
  - constructor; [congruence|].
    destruct (String.eqb _ _); eapply IH, Hscan.
Qed.

Lemma fileTag_wellGrouped (groups : Multi.Groups) (tag : string) :
  wellGrouped groups ->
  wellGrouped (fileTag client purgeConfig repo groups tag).
Proof.
  intros H. unfold fileTag.
  destruct (filedUnder _ _ _ _); [now apply appendTo_wellGrouped | exact H].
Qed.

Lemma fileAll_wellGrouped (tags : list string) (groups : Multi.Groups) :
  wellGrouped groups ->
  wellGrouped (fold_left (fileTag client purgeConfig repo) tags groups).
Proof.
  revert groups. induction tags as [|tag rest IH]; intros groups H; simpl;
    [exact H | apply IH, fileTag_wellGrouped, H].
Qed.

Lemma fileAll_lookup (k : Multi.TagConfig) (tags : list string)
      (groups : Multi.Groups) :
  lookupGroup k (fold_left (fileTag client purgeConfig repo) tags groups)
  = lookupGroup k groups
      ++ map (tagDataOf client repo)
             (filter (isFiledUnder client purgeConfig repo k) tags).
Proof.
  revert groups. induction tags as [|tag rest IH]; intros groups; simpl.
  - now rewrite app_nil_r.
  - rewrite IH. unfold fileTag, isFiledUnder.
    destruct (filedUnder client purgeConfig repo tag) as [k0|];
      [|reflexivity].
    rewrite lookupGroup_appendTo.
    destruct (Multi.TagConfig_eqb k k0); simpl;
      [now rewrite <- app_assoc | reflexivity].
Qed.

Lemma fileAll_contents (tags : list string) (groups : Multi.Groups) :
  Permutation
    (flat_map snd (fold_left (fileTag client purgeConfig repo) tags groups))
    (flat_map snd groups
       ++ map (tagDataOf client repo)
              (filter (isFiled client purgeConfig repo) tags)).
Proof.
  revert groups. induction tags as [|tag rest IH]; intros groups; simpl.
  - now rewrite app_nil_r.
  - rewrite IH. unfold fileTag, isFiled.
    destruct (filedUnder client purgeConfig repo tag) as [k0|];
      [|reflexivity].
    rewrite appendTo_contents. simpl. now rewrite <- app_assoc.
Qed.

End MultiScan.

(** The loop over the groups splits the tags of all groups. *)
Lemma partitionGroups_Permutation (now : Time) (groups : Multi.Groups) :
  let d := Multi.partitionGroups now groups noDecision in
  Permutation (keepTags d ++ purgeTags d) (map name (flat_map snd groups)).
Proof.
  intros d. unfold d. rewrite partitionGroups_eq. simpl.
  induction groups as [|[k v] rest IH]; simpl; [constructor|].
  rewrite map_app, <- IH, <- (decide_Permutation now (Multi.TagsKeepDays k)
                                (Multi.TagsKeepCount k) v).
  rewrite Multi_partition_decide.
  rewrite <- !app_assoc. apply Permutation_app_head.
  rewrite !app_assoc. apply Permutation_app_tail, Permutation_app_comm.
Qed.

(** X4: in the variant with a list of tag rules, when no tag reaches a
    pattern that does not compile, the decision of a repository splits
    exactly the listed tags that some tag rule matches and that have a
    manifest: every such tag is kept or purged, and no other tag is.  The
    tags a rule matches but whose manifest is missing are logged as errors,
    each once, in listing order.  This holds whatever order [range] visits
    the groups in. *)
Theorem Multi_decision_covers_filed_tags (re : RegexpLib) (mf : ManifestLib)
        (client : Registry.Client) (range : Multi.MapRange)
        (namespace repo : string) (rules : list Multi.PurgeConfig)
        (now : Time) (mode : bool) (purgeConfig : Multi.PurgeConfig) :
  Multi.selectConfig (fullName namespace repo) rules
  = Multi.Match purgeConfig ->
  Forall (fun tag => Multi.selectTagConfig tag (Multi.Tags purgeConfig)
                     <> Multi.TagRegexError)
         (Registry.Tags client (fullName namespace repo)) ->
  let full := fullName namespace repo in
  let tags := Registry.Tags client full in
  let considered := filter (isFiled client purgeConfig full) tags in
  let report := Multi.analyzeRepo client range namespace repo rules now mode in
  Permutation (keepTags (decision report) ++ purgeTags (decision report))
              considered
  /\ (forall tag,
         In tag (keepTags (decision report))
         \/ In tag (purgeTags (decision report)) ->
         In tag tags /\ isFiled client purgeConfig full tag = true)
  /\ missingManifests (events report)
     = map (pair full) (filter (lacksManifest client purgeConfig full) tags).
Proof.
  intros Hsel Hok full tags considered report.
  change (fullName namespace repo) with full in Hsel, Hok.
  change (Registry.Tags client full) with tags in Hok.
  assert (Hreport :
            Permutation (keepTags (decision report)
                           ++ purgeTags (decision report)) considered
            /\ missingManifests (events report)
               = map (pair full)
                     (filter (lacksManifest client purgeConfig full) tags)).
  { unfold report, Multi.analyzeRepo. fold full. rewrite Hsel. fold tags.
    destruct (len tags =? 0) eqn:Hlen.
    - apply Z.eqb_eq in Hlen.
      assert (Hnil : tags = []) by (apply len_nil_inv; lia).
      unfold considered. rewrite Hnil. simpl. split; reflexivity || constructor.
    - rewrite (Multi_scanTags_filed client purgeConfig full tags [] [] Hok).
      cbn [decision events app]. split.
      + rewrite partitionGroups_Permutation.
        rewrite (Multi.rangeOver_Permutation range), fileAll_contents.
        simpl. apply Permutation_refl' , map_name_tagDataOf.
      + rewrite missingManifests_app, missingManifests_errors,
          (missingManifests_deletes _ (Multi_purgeLoop_deletes _ _ _)).
        apply app_nil_r. }
  destruct Hreport as [Hperm Hlog].
  repeat split; try assumption.
  - assert (Hin : In tag considered)
      by (apply (Permutation_in _ Hperm), in_or_app; assumption).
    now apply filter_In in Hin.
  - assert (Hin : In tag considered)
      by (apply (Permutation_in _ Hperm), in_or_app; assumption).
    now apply filter_In in Hin.
Qed.

Lemma Multi_decision_covers_filed_tags_witness :
  let report :=
    @Multi.analyzeRepo Examples.literalRegexpLib Examples.appManifests
      Examples.appClient Examples.reversed "library" "app"
      [Examples.twoTagRules] Examples.newYear false in
  Permutation (keepTags (decision report) ++ purgeTags (decision report))
              ["v1"; "v2"].
Proof.
  apply (Multi_decision_covers_filed_tags
           Examples.literalRegexpLib Examples.appManifests Examples.appClient
           Examples.reversed "library" "app" [Examples.twoTagRules]
           Examples.newYear false Examples.twoTagRules eq_refl).
  repeat constructor; discriminate.
Defined.

(** X5: when the scan of the variant with a list of tag rules ends, the
    map holds, under each tag rule, exactly the tags filed under it (those
    whose first matching rule it is and that have a manifest), in listing
    order; its keys are distinct, no group is empty, and an entry is found
    again under its key.  So every tag is judged by the keepDays and
    keepCount of the first rule that matches it. *)
Theorem Multi_groups_by_first_matching_rule (re : RegexpLib)
        (mf : ManifestLib) (client : Registry.Client)
        (purgeConfig : Multi.PurgeConfig) (repo : string)
        (tags : list string) (groups : Multi.Groups) (log : list Event) :
  Multi.scanTags client repo purgeConfig tags [] []
  = (Multi.Collected groups, log) ->
  (forall k,
      lookupGroup k groups
      = map (tagDataOf client repo)
            (filter (isFiledUnder client purgeConfig repo k) tags))
  /\ NoDup (map fst groups)
  /\ (forall k v, In (k, v) groups -> v <> [] /\ lookupGroup k groups = v).
Proof.
  intros Hscan.
  pose proof (Multi_scanTags_Collected client purgeConfig repo _ _ _ _ _
                Hscan) as Hok.
  rewrite (Multi_scanTags_filed client purgeConfig repo tags [] [] Hok)
    in Hscan.
  injection Hscan as <- _.
  destruct (fileAll_wellGrouped client purgeConfig repo tags [])
    as [Hkeys Hfull]; [split; constructor|].
  split; [|split].
  - intros k. now rewrite fileAll_lookup.
  - exact Hkeys.
  - intros k v Hin. split.
    + rewrite Forall_forall in Hfull. apply (Hfull (k, v) Hin).
    + now apply lookupGroup_In.
Qed.

Lemma Multi_groups_by_first_matching_rule_witness :
  lookupGroup (Multi.mkTagConfig "v" 60 0)
    [(Multi.mkTagConfig "v1" 30 0,
      [@tagDataOf Examples.appManifests Examples.appClient "app" "v1"]);
     (Multi.mkTagConfig "v" 60 0,
      [@tagDataOf Examples.appManifests Examples.appClient "app" "v2"])]
  = map (@tagDataOf Examples.appManifests Examples.appClient "app")
        (filter (@isFiledUnder Examples.literalRegexpLib Examples.appClient
                   Examples.twoTagRules "app" (Multi.mkTagConfig "v" 60 0))
                ["v1"; "v2"]).
Proof.
  exact (proj1 (Multi_groups_by_first_matching_rule
                  Examples.literalRegexpLib Examples.appManifests
                  Examples.appClient Examples.twoTagRules "app" ["v1"; "v2"]
                  _ [] eq_refl)
               (Multi.mkTagConfig "v" 60 0)).
Defined.

(** ** The age in days *)

Lemma delta_daysOf (now : Time) (tag : tagData) :
  delta now tag = daysOf (Sub now (created tag)).
Proof. reflexivity. Qed.

Lemma Sub_in_range (now created : Time) :
  minDuration <= now - created <= maxDuration ->
  Sub now created = now - created.
Proof.
  intros [Hlo Hhi]. unfold Sub. cbv zeta.
  destruct (Z.ltb_spec (now - created) minDuration); [lia|].
  destruct (Z.ltb_spec maxDuration (now - created)); [lia|]. reflexivity.
Qed.

Lemma In_wholeDays (n : nat) (k : Z) :
  0 <= k < Z.of_nat n -> In k (wholeDays n).
Proof.
  intros Hk. unfold wholeDays. apply in_map_iff.
  exists (Z.to_nat k). split; [lia|]. apply in_seq. lia.
Qed.

(** X6: a difference of 2^63 - 1 nanoseconds or more (about 292 years)
    saturates: the tag counts as 106751 days old, and as -106751 days old
    when it is that far in the future.  So a tag whose creation date reads
    as the zero time is 106751 days old at any current time from 1970
    on. *)
Theorem delta_saturates (now : Time) (tag : tagData) :
  (maxDuration <= now - created tag -> delta now tag = 106751)
  /\ (now - created tag <= minDuration -> delta now tag = - 106751)
  /\ (0 <= now -> created tag = Examples.zeroTime -> delta now tag = 106751).
Proof.
  assert (Hmax : maxDuration <= now - created tag -> delta now tag = 106751).
  { intros H. rewrite delta_daysOf. unfold Sub. cbv zeta.
    destruct (Z.ltb_spec (now - created tag) minDuration);
      [unfold minDuration, maxDuration in *; lia|].
    destruct (Z.ltb_spec maxDuration (now - created tag)).
    - vm_compute. reflexivity.
    - replace (now - created tag) with maxDuration by lia.
      vm_compute. reflexivity. }
  split; [exact Hmax | split].
  - intros H. rewrite delta_daysOf. unfold Sub. cbv zeta.
    destruct (Z.ltb_spec (now - created tag) minDuration).
    + vm_compute. reflexivity.
    + replace (now - created tag) with minDuration by lia.
      vm_compute. reflexivity.
  - intros Hnow Hzero. apply Hmax. rewrite Hzero.
    unfold Examples.zeroTime, maxDuration, Second, Nanosecond. lia.
Qed.

Lemma delta_saturates_witness :
  delta Examples.newYear (mkTagData "undated" Examples.zeroTime) = 106751.
Proof.
  apply (delta_saturates Examples.newYear
           (mkTagData "undated" Examples.zeroTime)).
  - vm_compute. discriminate.
  - reflexivity.
Defined.

(** X7: a tag created a whole number k of days before the current time,
    for k from 0 to 3659 (ten years), has an age of exactly k days: it is
    purged by the age rule when keepDays < k and kept when keepDays >= k. *)
Theorem delta_whole_days (now : Time) (tag : tagData) (keepDays k : Z) :
  0 <= k < 3660 ->
  created tag = now - k * Examples.day ->
  delta now tag = k /\ stale now keepDays tag = (keepDays <? k).
Proof.
  intros Hk Hcreated.
  assert (Hdelta : delta now tag = k).
  { rewrite delta_daysOf, Hcreated, Sub_in_range
      by (unfold minDuration, maxDuration, Examples.day, Hour, Minute, Second,
          Nanosecond; lia).
    replace (now - (now - k * Examples.day)) with (k * Examples.day) by lia.
    assert (Hall : forallb (fun k => daysOf (k * Examples.day) =? k)
                           (wholeDays 3660) = true)
      by (vm_compute; reflexivity).
    rewrite forallb_forall in Hall.
    apply Z.eqb_eq, Hall, In_wholeDays. lia. }
  split; [exact Hdelta|]. unfold stale. now rewrite Hdelta.
Qed.

Lemma delta_whole_days_witness :
  delta Examples.newYear (Examples.aged Examples.newYear "t40" 40) = 40.
Proof.
  apply (delta_whole_days Examples.newYear
           (Examples.aged Examples.newYear "t40" 40) 30 40);
    [lia | reflexivity].
Defined.

(** X8: the age is not the floor of the exact number of days.  A tag that
    is one nanosecond short of k days old counts as k - 1 days old for k
    from 1 to 170, but as k days old for k from 171 to 3659: the sum in
    [Hours] rounds up to the whole hour. *)
Theorem delta_one_nanosecond_short (now : Time) (tag : tagData) (k : Z) :
  1 <= k < 3660 ->
  created tag = now - (k * Examples.day - 1) ->
  delta now tag = if k <? 171 then k - 1 else k.
Proof.
  intros Hk Hcreated.
  rewrite delta_daysOf, Hcreated, Sub_in_range
    by (unfold minDuration, maxDuration, Examples.day, Hour, Minute, Second,
        Nanosecond; lia).
  replace (now - (now - (k * Examples.day - 1)))
    with (k * Examples.day - 1) by lia.
  assert (Hall : forallb (fun k => daysOf ((k + 1) * Examples.day - 1)
                                   =? (if k + 1 <? 171 then k else k + 1))
                         (wholeDays 3659) = true)
    by (vm_compute; reflexivity).
  rewrite forallb_forall in Hall.
  specialize (Hall (k - 1)). replace (k - 1 + 1) with k in Hall by lia.
  apply Z.eqb_eq in Hall; [|apply In_wholeDays; lia].
  rewrite Hall. destruct (k <? 171); lia.
Qed.

Lemma delta_one_nanosecond_short_witness :
  delta Examples.newYear
        (mkTagData "t" (Examples.newYear - (200 * Examples.day - 1)))
  = 200.
Proof.
  apply (delta_one_nanosecond_short Examples.newYear
           (mkTagData "t" (Examples.newYear - (200 * Examples.day - 1))) 200);
    [lia | reflexivity].
Defined.

(** ** How many tags the floor keeps *)

Lemma decide_keep_count (now : Time) (keepDays keepCount : Z)
      (tags : timeSlice) :
  let fresh := len (freshNames now keepDays tags) in
  let old := len (staleNames now keepDays tags) in
  len (keepTags (decide now keepDays keepCount tags))
  = if fresh <? keepCount then fresh + Z.min keepCount old else fresh.
Proof.
  intros fresh old.
  pose proof (len_fresh_stale now keepDays tags) as Hsum.
  fold fresh old in Hsum.
  unfold decide, keepMinimalCount. fold old.
  replace (len tags - old) with fresh by lia.
  destruct (fresh <? keepCount) eqn:Hlow; [|reflexivity].
  destruct (keepCount <? old) eqn:Hmany; simpl; rewrite len_app; fold fresh.
  - rewrite len_firstn.
    + apply Z.ltb_lt in Hmany. lia.
    + apply (rescue_bounds keepCount (fresh + old));
        [unfold fresh; pose proof (len_nonneg (freshNames now keepDays tags));
         lia | | exact Hmany].
      replace (fresh + old - len (staleNames now keepDays tags)) with fresh
        by (unfold old; lia).
      exact Hlow.
  - fold old. apply Z.ltb_ge in Hmany. lia.
Qed.

Lemma len_filter_Permutation {A : Type} (f : A -> bool) (l l' : list A) :
  Permutation l l' -> len (filter f l) = len (filter f l').
Proof. intros H. apply len_Permutation, filter_Permutation, H. Qed.

(** X9: the number of tags either variant keeps.  With [fresh] tags not
    older than keepDays and [old] tags older: when fresh >= keepCount the
    age rule alone decides and [fresh] tags are kept; when fresh <
    keepCount the floor adds min(keepCount, old) tags to them, not just
    the keepCount - fresh that are missing, so up to fresh + keepCount tags
    are kept.  The rest of the group is purged. *)
Theorem partition_keep_count (so : SortLib) (keepDays keepCount : Z)
        (now : Time) (group : timeSlice) :
  SortsByLess so ->
  let fresh := len (filter (fun tag => negb (stale now keepDays tag)) group) in
  let old := len (filter (stale now keepDays) group) in
  let kept := if fresh <? keepCount then fresh + Z.min keepCount old
              else fresh in
  let dS := Single.partition keepDays keepCount now group in
  let dM := Multi.partition keepDays keepCount now group in
  (len (keepTags dS) = kept /\ len (purgeTags dS) = len group - kept)
  /\ (len (keepTags dM) = kept /\ len (purgeTags dM) = len group - kept).
Proof.
  intros Hso fresh old kept dS dM.
  assert (HM : len (keepTags dM) = kept).
  { unfold dM. rewrite Multi_partition_decide, decide_keep_count.
    unfold freshNames, staleNames. now rewrite !len_map. }
  assert (HS : len (keepTags dS) = kept).
  { unfold dS. rewrite Single_partition_decide, decide_keep_count.
    unfold freshNames, staleNames. rewrite !len_map.
    rewrite !(len_filter_Permutation _ _ _ (proj1 (Hso group))).
    reflexivity. }
  split; (split; [assumption|]).
  - pose proof (decide_len now keepDays keepCount (Sort group)) as Hlen.
    rewrite <- Single_partition_decide in Hlen. fold dS in Hlen.
    rewrite (len_Permutation _ _ (proj1 (Hso group))) in Hlen. lia.
  - pose proof (decide_len now keepDays keepCount group) as Hlen.
    rewrite <- Multi_partition_decide in Hlen. fold dM in Hlen. lia.
Qed.

Lemma partition_keep_count_witness :
  len (keepTags (Multi.partition 30 1 Examples.newYear
                   (Examples.scenarioGroup Examples.newYear)))
  = 2
  /\ len (keepTags (Multi.partition 30 3 Examples.newYear
                      (Examples.scenarioGroup Examples.newYear)))
     = 5.
Proof.
  split.
  - destruct (partition_keep_count Examples.insertionSortLib 30 1
                Examples.newYear (Examples.scenarioGroup Examples.newYear)
                insertionSort_SortsByLess) as [_ [HM _]].
    rewrite HM. vm_compute. reflexivity.
  - destruct (partition_keep_count Examples.insertionSortLib 30 3
                Examples.newYear (Examples.scenarioGroup Examples.newYear)
                insertionSort_SortsByLess) as [_ [HM _]].
    rewrite HM. vm_compute. reflexivity.
Defined.

Lemma decide_purge_suffix (now : Time) (keepDays keepCount keepCount' : Z)
      (tags : timeSlice) :
  keepCount <= keepCount' ->
  exists rescued,
    purgeTags (decide now keepDays keepCount tags)
    = rescued ++ purgeTags (decide now keepDays keepCount' tags).
Proof.
  intros Hle. unfold decide, keepMinimalCount.
  set (old := staleNames now keepDays tags).
  set (fresh := len tags - len old).
  assert (Hfresh : 0 <= fresh).
  { unfold fresh, old. pose proof (len_fresh_stale now keepDays tags).
    pose proof (len_nonneg (freshNames now keepDays tags)). lia. }
  destruct (Z.ltb_spec fresh keepCount) as [Hlow|Hlow];
    destruct (Z.ltb_spec fresh keepCount') as [Hlow'|Hlow']; try lia;
    destruct (Z.ltb_spec keepCount (len old)) as [Hmany|Hmany];
    destruct (Z.ltb_spec keepCount' (len old)) as [Hmany'|Hmany'];
    try lia; simpl;
    match goal with
    | |- exists r, ?a = r ++ ?a => now exists []
    | |- exists r, ?a = r ++ [] => exists a; now rewrite app_nil_r
    | |- exists r, ?l = r ++ skipn ?n ?l =>
        exists (firstn n l); now rewrite firstn_skipn
    | |- exists r, skipn ?m ?l = r ++ skipn ?n ?l =>
        exists (firstn (n - m) (skipn m l));
        rewrite <- (firstn_skipn (n - m) (skipn m l)) at 1;
        f_equal; rewrite skipn_skipn; f_equal; lia
    end.
Qed.

(** X10: raising keepCount never purges more.  For keepCount <= keepCount'
    the purge list under keepCount' is the tail of the purge list under
    keepCount: the tags at its head are rescued and nothing is added.  Both
    variants, for every group, keepDays and current time. *)
Theorem purge_shrinks_as_keepCount_grows (so : SortLib)
        (keepDays keepCount keepCount' : Z) (now : Time)
        (group : timeSlice) :
  keepCount <= keepCount' ->
  (exists rescued,
      purgeTags (Single.partition keepDays keepCount now group)
      = rescued ++ purgeTags (Single.partition keepDays keepCount' now group))
  /\ (exists rescued,
         purgeTags (Multi.partition keepDays keepCount now group)
         = rescued
             ++ purgeTags (Multi.partition keepDays keepCount' now group)).
Proof.
  intros Hle. split.
  - rewrite !Single_partition_decide. now apply decide_purge_suffix.
  - rewrite !Multi_partition_decide. now apply decide_purge_suffix.
Qed.

Lemma purge_shrinks_as_keepCount_grows_witness :
  exists rescued,
    purgeTags (Multi.partition 5 0 Examples.newYear
                 (Examples.scenarioGroup Examples.newYear))
    = rescued ++ purgeTags (Multi.partition 5 2 Examples.newYear
                              (Examples.scenarioGroup Examples.newYear)).
Proof.
  apply (purge_shrinks_as_keepCount_grows Examples.insertionSortLib 5 0 2
           Examples.newYear (Examples.scenarioGroup Examples.newYear)).
  lia.
Defined.

(** ** The order on tags and the swap *)

(** X11: [Less] is a strict weak order, as [sort.Sort] needs: no tag is
    less than itself, [Less] is asymmetric and transitive, and being
    unordered either way is an equivalence, namely being created at the
    same instant. *)
Theorem Less_strict_weak_order :
  (forall a, Less a a = false)
  /\ (forall a b, Less a b = true -> Less b a = false)
  /\ (forall a b c, Less a b = true -> Less b c = true -> Less a c = true)
  /\ (forall a b,
         Less a b = false /\ Less b a = false <-> created a = created b)
  /\ (forall a b c,
         Less a b = false -> Less b a = false ->
         Less b c = false -> Less c b = false ->
         Less a c = false /\ Less c a = false).
Proof.
  unfold Less, After. repeat split.
  - intros a. apply Z.ltb_irrefl.
  - intros a b H. apply Z.ltb_lt in H. apply Z.ltb_ge. lia.
  - intros a b c H1 H2. apply Z.ltb_lt in H1, H2. apply Z.ltb_lt. lia.
  - intros [H1 H2]. apply Z.ltb_ge in H1, H2. lia.
  - apply Z.ltb_ge. lia.
  - apply Z.ltb_ge. lia.
  - apply Z.ltb_ge in H, H0, H1, H2. apply Z.ltb_ge. lia.
  - apply Z.ltb_ge in H, H0, H1, H2. apply Z.ltb_ge. lia.
Qed.

Lemma length_assign (p : timeSlice) (i : nat) (d : tagData) :
  List.length (assign p i d) = List.length p.
Proof.
  revert i. induction p as [|x p IH]; intros [|i]; simpl; auto.
Qed.

Lemma nth_error_assign (p : timeSlice) (i : nat) (d : tagData) (n : nat) :
  (i < List.length p)%nat ->
  nth_error (assign p i d) n
  = if Nat.eqb n i then Some d else nth_error p n.
Proof.
  revert i n. induction p as [|x p IH]; intros i n Hi; simpl in Hi; [lia|].
  destruct i as [|i], n as [|n]; simpl; try reflexivity.
  apply IH. lia.
Qed.

Lemma inRange_iff (p : timeSlice) (i : Z) :
  inRange p i = true <-> 0 <= i < Len p.
Proof.
  unfold inRange, Len. rewrite andb_true_iff, Z.leb_le, Z.ltb_lt. tauto.
Qed.

Lemma inRange_nth_error (p : timeSlice) (i : Z) :
  inRange p i = true -> exists a, nth_error p (Z.to_nat i) = Some a.
Proof.
  intros H. apply inRange_iff in H. unfold Len, len in H.
  destruct (nth_error p (Z.to_nat i)) eqn:E; [eauto|].
  apply nth_error_None in E. lia.
Qed.

Lemma exchanged_involutive (i j n : nat) :
  exchanged i j (exchanged i j n) = n.
Proof.
  unfold exchanged.
  destruct (Nat.eqb_spec n i), (Nat.eqb_spec n j); subst;
    repeat match goal with
           | |- context [Nat.eqb ?x ?y] => destruct (Nat.eqb_spec x y)
           end; congruence.
Qed.

Lemma Swap_nth_error (p q : timeSlice) (i j : Z) :
  Swap p i j = Some q ->
  forall n, nth_error q n
            = nth_error p (exchanged (Z.to_nat i) (Z.to_nat j) n).
Proof.
  unfold Swap. destruct (inRange p i && inRange p j) eqn:Hr; [|discriminate].
  apply andb_prop in Hr as [Hi Hj].
  destruct (inRange_nth_error p i Hi) as [a Ha].
  destruct (inRange_nth_error p j Hj) as [b Hb].
  rewrite Ha, Hb. intros [= <-] n.
  apply inRange_iff in Hi, Hj. unfold Len, len in Hi, Hj.
  rewrite !nth_error_assign by (rewrite ?length_assign; lia).
  unfold exchanged.
  destruct (Nat.eqb_spec n (Z.to_nat j)), (Nat.eqb_spec n (Z.to_nat i));
    subst; congruence.
Qed.

Lemma Swap_length (p q : timeSlice) (i j : Z) :
  Swap p i j = Some q -> List.length q = List.length p.
Proof.
  unfold Swap. destruct (inRange p i && inRange p j); [|discriminate].
  destruct (nth_error p (Z.to_nat i)), (nth_error p (Z.to_nat j));
    try discriminate.
  intros [= <-]. now rewrite !length_assign.
Qed.

(** X12: [Swap] with both indices in range exchanges the two elements and
    leaves the others in place: the slice keeps its length and its
    elements, swapping the same indices again restores it, and [Less] on
    the two indices reads the elements the other way round.  With an index
    out of range, and only then, it panics. *)
Theorem Swap_exchanges_two_elements (p : timeSlice) (i j : Z) :
  (Swap p i j = None <-> ~ (0 <= i < Len p /\ 0 <= j < Len p))
  /\ forall q,
       Swap p i j = Some q ->
       Len q = Len p
       /\ Permutation q p
       /\ nth_error q (Z.to_nat i) = nth_error p (Z.to_nat j)
       /\ nth_error q (Z.to_nat j) = nth_error p (Z.to_nat i)
       /\ (forall n, n <> Z.to_nat i -> n <> Z.to_nat j ->
                     nth_error q n = nth_error p n)
       /\ Swap q i j = Some p
       /\ LessAt q i j = LessAt p j i.
Proof.
  split.
  - unfold Swap. rewrite <- !inRange_iff.
    destruct (inRange p i) eqn:Hi, (inRange p j) eqn:Hj; simpl;
      try (split; [intros _ [? ?]; discriminate | reflexivity]).
    destruct (inRange_nth_error p i Hi) as [a ->].
    destruct (inRange_nth_error p j Hj) as [b ->].
    split; [discriminate | intros H; exfalso; apply H; auto].
  - intros q Hswap.
    pose proof (Swap_nth_error p q i j Hswap) as Hnth.
    pose proof (Swap_length p q i j Hswap) as Hlen.
    assert (Hback : Swap q i j = Some p).
    { assert (Hr : inRange q i && inRange q j = true).
      { unfold Swap in Hswap.
        destruct (inRange p i && inRange p j) eqn:Hr; [|discriminate].
        unfold inRange, len in *. now rewrite Hlen. }
      unfold Swap. rewrite Hr. apply andb_prop in Hr as [Hi Hj].
      destruct (inRange_nth_error q i Hi) as [a Ha].
      destruct (inRange_nth_error q j Hj) as [b Hb].
      rewrite Ha, Hb. f_equal. apply nth_error_ext. intros n.
      apply inRange_iff in Hi, Hj. unfold Len, len in Hi, Hj.
      rewrite !nth_error_assign by (rewrite ?length_assign; lia).
      rewrite Hnth in Ha, Hb. unfold exchanged in Ha, Hb.
      rewrite Nat.eqb_refl in Ha.
      destruct (Nat.eqb_spec n (Z.to_nat j)), (Nat.eqb_spec n (Z.to_nat i));
        subst.
      + now rewrite Ha.
      + now rewrite Ha.
      + rewrite Nat.eqb_refl in Hb.
        destruct (Nat.eqb_spec (Z.to_nat j) (Z.to_nat i)); congruence.
      + rewrite Hnth. unfold exchanged.
        destruct (Nat.eqb_spec n (Z.to_nat i)),
          (Nat.eqb_spec n (Z.to_nat j)); congruence. }
    repeat split.
    + unfold Len, len. now rewrite Hlen.
    + apply Permutation_nth_error. split; [exact Hlen|].
      exists (exchanged (Z.to_nat i) (Z.to_nat j)).
      split; [|exact (Swap_nth_error q p i j Hback)].
      intros x y Hxy.
      rewrite <- (exchanged_involutive (Z.to_nat i) (Z.to_nat j) x),
        <- (exchanged_involutive (Z.to_nat i) (Z.to_nat j) y).
      now rewrite Hxy.
    + rewrite Hnth. unfold exchanged. now rewrite Nat.eqb_refl.
    + rewrite Hnth. unfold exchanged. rewrite Nat.eqb_refl.
      destruct (Nat.eqb_spec (Z.to_nat j) (Z.to_nat i)); congruence.
    + intros n Hi Hj. rewrite Hnth. unfold exchanged.
      destruct (Nat.eqb_spec n (Z.to_nat i)), (Nat.eqb_spec n (Z.to_nat j));
        congruence.
    + exact Hback.
    + unfold LessAt.
      assert (Hr : inRange q i && inRange q j = inRange p j && inRange p i).
      { unfold inRange, len. rewrite Hlen. apply andb_comm. }
      rewrite Hr. destruct (inRange p j && inRange p i); [|reflexivity].
      rewrite !Hnth. unfold exchanged. rewrite Nat.eqb_refl.
      destruct (Nat.eqb_spec (Z.to_nat j) (Z.to_nat i)) as [E|E];
        [rewrite E|]; rewrite ?Nat.eqb_refl; reflexivity.
Qed.

Lemma Swap_exchanges_two_elements_witness :
  Swap (Examples.scenarioGroup 0) 0 4
  = Some [Examples.aged 0 "t200" 200; Examples.aged 0 "t10" 10;
          Examples.aged 0 "t40" 40; Examples.aged 0 "t90" 90;
          Examples.aged 0 "t1" 1]
  /\ Permutation [Examples.aged 0 "t200" 200; Examples.aged 0 "t10" 10;
                  Examples.aged 0 "t40" 40; Examples.aged 0 "t90" 90;
                  Examples.aged 0 "t1" 1]
                 (Examples.scenarioGroup 0).
Proof.
  split; [reflexivity|].
  apply (proj2 (Swap_exchanges_two_elements (Examples.scenarioGroup 0) 0 4)).
  reflexivity.
Defined.

(** ** What is deleted *)

Lemma deleteCalls_flat_map (rs : list Report) :
  deleteCalls (flat_map events rs)
  = flat_map (fun r => deleteCalls (events r)) rs.
Proof.
  induction rs as [|r rs IH]; simpl; [reflexivity|].
  now rewrite deleteCalls_app, IH.
Qed.

Lemma Multi_decision_NoDup {re : RegexpLib} {mf : ManifestLib}
      (client : Registry.Client) (range : Multi.MapRange)
      (namespace repo : string) (rules : list Multi.PurgeConfig)
      (now : Time) (mode : bool) :
  let report := Multi.analyzeRepo client range namespace repo rules now mode in
  NoDup (Registry.Tags client (fullName namespace repo)) ->
  NoDup (keepTags (decision report) ++ purgeTags (decision report)).
Proof.
  intros report Htags. unfold report, Multi.analyzeRepo.
  destruct (Multi.selectConfig _ _); simpl; try constructor.
  destruct (len _ =? 0); simpl; try constructor.
  destruct (Multi.scanTags _ _ _ _ _ _) as [[|groups] log] eqn:Hscan; simpl;
    try constructor.
  pose proof (Multi_scanTags_Collected client purgeConfig _ _ _ _ _ _ Hscan)
    as Hok.
  rewrite (Multi_scanTags_filed client purgeConfig _ _ [] [] Hok) in Hscan.
  injection Hscan as <- _.
  eapply Permutation_NoDup.
  - apply Permutation_sym, partitionGroups_Permutation.
  - rewrite (Multi.rangeOver_Permutation range), fileAll_contents. simpl.
    rewrite map_name_tagDataOf. now apply NoDup_filter.
Qed.

(** X13: outside dry-run, the variant with a list of tag rules asks the
    registry to delete each purged tag of a repository once, under the
    repository's full name and in the order of the purge list, and nothing
    else.  Where the listed tag names are distinct no delete is repeated
    and no kept tag is deleted.  Over a whole run the deletes are those of
    the repositories, one repository after the other. *)
Theorem Multi_deletes_exactly_the_purged_tags (re : RegexpLib)
        (mf : ManifestLib) (client : Registry.Client)
        (range : Multi.MapRange) (namespace repo : string)
        (rules : list Multi.PurgeConfig) (keepDays keepCount : Z)
        (now : Time) :
  let full := fullName namespace repo in
  let report := Multi.analyzeRepo client range namespace repo rules now
                                  false in
  let run := Multi.PurgeOldTags client range false keepDays keepCount rules
                                now in
  deleteCalls (events report)
  = map (pair full) (purgeTags (decision report))
  /\ (NoDup (Registry.Tags client full) ->
      NoDup (deleteCalls (events report))
      /\ forall tag, In tag (keepTags (decision report)) ->
                     ~ In (full, tag) (deleteCalls (events report)))
  /\ deleteCalls (trace run)
     = flat_map (fun r => map (pair (repoName r)) (purgeTags (decision r)))
                (reports run).
Proof.
  intros full report run.
  assert (Hcalls : forall ns rp rs,
             deleteCalls (events (Multi.analyzeRepo client range ns rp rs now
                                                    false))
             = map (pair (fullName ns rp))
                   (purgeTags (decision (Multi.analyzeRepo client range ns rp
                                                           rs now false)))).
  { intros ns rp rs.
    exact (Multi_analyzeRepo_calls client range ns rp rs now false). }
  pose proof (Hcalls namespace repo rules) as Hreport.
  fold report full in Hreport.
  split; [exact Hreport | split].
  - intros Htags.
    pose proof (Multi_decision_NoDup client range namespace repo rules now
                  false Htags) as Hnd.
    fold report in Hnd. rewrite Hreport. split.
    + apply NoDup_app_remove_l in Hnd.
      apply Finite.Injective_map_NoDup; [|exact Hnd].
      intros x y Hxy. now injection Hxy.
    + intros tag Hkeep Hin. apply in_map_iff in Hin as (tag' & [= <-] & Hin).
      exact (NoDup_app_disjoint _ _ _ Hnd Hkeep Hin).
  - unfold trace. replace (startup run) with (@nil Event) by reflexivity.
    cbn [app]. rewrite deleteCalls_flat_map. unfold run.
    rewrite Multi_reports.
    rewrite !flat_map_concat_map, !map_map. f_equal. apply map_ext.
    intros visit. now rewrite Hcalls, Multi_repoName.
Qed.

Lemma Multi_deletes_exactly_the_purged_tags_witness :
  let report :=
    @Multi.analyzeRepo Examples.literalRegexpLib Examples.appManifests
      Examples.appClient Examples.inOrder "library" "app"
      [Multi.globalConfig 50 0] Examples.newYear false in
  NoDup (deleteCalls (events report))
  /\ deleteCalls (events report) = [("app", "v2")].
Proof.
  split; [|reflexivity].
  apply (Multi_deletes_exactly_the_purged_tags
           Examples.literalRegexpLib Examples.appManifests Examples.appClient
           Examples.inOrder "library" "app" [Multi.globalConfig 50 0] 50 0
           Examples.newYear).
  repeat constructor; simpl; intuition discriminate.
Defined.

(** X14: outside dry-run, the variant with one tag rule asks for one
    delete per ordered pair of purged tags, the first of the pair standing
    for the repository: with n purged tags it issues n * n deletes, and a
    delete reaches the repository under analysis only if one of its purged
    tags bears the repository's full name. *)
Theorem Single_deletes_every_pair_of_purged_tags (re : RegexpLib)
        (so : SortLib) (mf : ManifestLib) (client : Registry.Client)
        (namespace repo : string) (rules : list Single.PurgeConfig)
        (now : Time) :
  let full := fullName namespace repo in
  let report := Single.analyzeRepo client namespace repo rules now false in
  let purge := purgeTags (decision report) in
  deleteCalls (events report) = list_prod purge purge
  /\ len (deleteCalls (events report)) = len purge * len purge
  /\ (forall r tag, In (r, tag) (deleteCalls (events report)) <->
                    In r purge /\ In tag purge)
  /\ (~ In full purge ->
      forall tag, ~ In (full, tag) (deleteCalls (events report))).
Proof.
  intros full report purge.
  assert (Hcalls : deleteCalls (events report) = list_prod purge purge)
    by exact (Single_analyzeRepo_calls client namespace repo rules now false).
  rewrite Hcalls. split; [reflexivity | split; [|split]].
  - unfold len. rewrite length_prod. lia.
  - intros r tag. apply in_prod_iff.
  - intros Hfull tag Hin. apply in_prod_iff in Hin. tauto.
Qed.

(** ** When the tag pattern is reported *)

(** X15: in the variant with one tag rule, a warning about the tag pattern
    is logged exactly when a rule is selected for the repository, its tag
    pattern does not compile and the repository has at least one tag; the
    warning names the first listed tag.  A repository without tags is
    never reported, however broken the pattern. *)
Theorem Single_tag_pattern_warning (re : RegexpLib) (so : SortLib)
        (mf : ManifestLib) (client : Registry.Client)
        (namespace repo : string) (rules : list Single.PurgeConfig)
        (now : Time) (mode : bool) (tag : string) :
  let full := fullName namespace repo in
  let report := Single.analyzeRepo client namespace repo rules now mode in
  In (WarnTagRegex full tag) (events report) <->
  exists purgeConfig,
    Single.selectConfig full rules = Single.Match purgeConfig
    /\ Compile (Single.TagsRegex purgeConfig) = None
    /\ hd_error (Registry.Tags client full) = Some tag.
Proof.
  intros full report. unfold report, Single.analyzeRepo. fold full.
  destruct (Single.selectConfig full rules) as [| |purgeConfig] eqn:Hsel.
  - simpl. split; [intros [H|[]]; discriminate|].
    intros (c & H & _). discriminate.
  - simpl. split; [contradiction|]. intros (c & H & _). discriminate.
  - destruct (Registry.Tags client full) as [|first rest] eqn:Htags.
    + simpl. split; [contradiction|]. intros (c & _ & _ & H). discriminate.
    + replace (len (first :: rest) =? 0) with false
        by (symmetry; apply Z.eqb_neq; unfold len; simpl; lia).
      destruct (Compile (Single.TagsRegex purgeConfig)) as [r|] eqn:Hc.
      * rewrite (Single_scanTags_compiled client full purgeConfig r _ [] []
                   Hc).
        cbn [events app]. split.
        -- intros Hin. apply in_app_or in Hin as [Hin|Hin].
           ++ apply in_map_iff in Hin as (t & Ht & _). discriminate.
           ++ pose proof (Single_purgeLoop_deletes mode
                            (purgeTags
                               (Single.partition
                                  (Single.TagsKeepDays purgeConfig)
                                  (Single.TagsKeepCount purgeConfig) now
                                  ([] ++ map (tagDataOf client full)
                                     (filter
                                        (fun tag0 =>
                                           found r tag0
                                           && hasManifest client full tag0)
                                        (first :: rest)))))) as Hdel.
              rewrite Forall_forall in Hdel.
              destruct (Hdel _ Hin) as (? & ? & H). discriminate.
        -- intros (c & [= <-] & Hnone & _). congruence.
      * rewrite Single_scanTags_fails by assumption. cbn [events app].
        split.
        -- intros [[= <-]|[]]. exists purgeConfig. auto.
        -- intros (c & [= <-] & _ & [= <-]). now left.
Qed.

(** ** Every repository of the catalog is analysed *)


Lemma Single_rescues_newest_witness :
  @Single.partition Examples.insertionSortLib 5 2 Examples.newYear
                    (Examples.listedOldestFirst Examples.newYear)
  = mkDecision ["t1"; "t10"; "t40"] ["t90"; "t200"].
Proof.
  destruct (Single_rescues_newest Examples.insertionSortLib 5 2
              Examples.newYear (Examples.listedOldestFirst Examples.newYear)
              insertionSort_SortsByLess) as [Hd _];
    [vm_compute; reflexivity | vm_compute; reflexivity |].
  rewrite Hd. vm_compute. reflexivity.
Defined.

(** ** The floor of each tag rule *)

(** X17: in the variant with a list of tag rules the floor is applied to
    each group on its own: a repository keeps at least, summed over its
    groups, the smaller of the group's keepCount and the group's size,
    whatever order the groups are visited in. *)
Theorem Multi_keeps_floor_of_every_group (now : Time)
        (range : Multi.MapRange) (groups : Multi.Groups) :
  Forall (fun group => 0 <= Multi.TagsKeepCount (fst group)) groups ->
  fold_right Z.add 0
    (map (fun group => Z.min (Multi.TagsKeepCount (fst group))
                             (len (snd group))) groups)
  <= len (keepTags (Multi.partitionGroups now (Multi.rangeOver range groups)
                                          noDecision)).
Proof.
  intros Hk.
  assert (Hsum : forall gs,
             Forall (fun group => 0 <= Multi.TagsKeepCount (fst group)) gs ->
             fold_right Z.add 0
               (map (fun group => Z.min (Multi.TagsKeepCount (fst group))
                                        (len (snd group))) gs)
             <= len (keepTags (Multi.partitionGroups now gs noDecision))).
  { intros gs Hgs. rewrite partitionGroups_eq. simpl.
    induction Hgs as [|[k v] rest Hk0 _ IH]; simpl; [reflexivity|].
    rewrite len_app, Multi_partition_decide.
    pose proof (decide_floor now (Multi.TagsKeepDays k)
                  (Multi.TagsKeepCount k) v Hk0).
    simpl in *. lia. }
  pose proof (Multi.rangeOver_Permutation range groups) as Hperm.
  assert (Hk' : Forall (fun group => 0 <= Multi.TagsKeepCount (fst group))
                       (Multi.rangeOver range groups)).
  { rewrite Forall_forall in *. intros g Hg.
    apply Hk, (Permutation_in _ Hperm), Hg. }
  specialize (Hsum _ Hk').
  assert (Heq : fold_right Z.add 0
                  (map (fun group => Z.min (Multi.TagsKeepCount (fst group))
                                           (len (snd group)))
                       (Multi.rangeOver range groups))
                = fold_right Z.add 0
                    (map (fun group =>
                            Z.min (Multi.TagsKeepCount (fst group))
                                  (len (snd group))) groups)).
  { clear Hsum Hk Hk'.
    induction Hperm as [|x l l' _ IH|x y l|l l' l'' _ IH1 _ IH2]; simpl;
      lia. }
  lia.
Qed.

Lemma Multi_keeps_floor_of_every_group_witness :
  2 <= len (keepTags
              (Multi.partitionGroups Examples.newYear
                 (Multi.rangeOver Examples.reversed
                    [(Multi.mkTagConfig "v1" 30 1,
                      [Examples.aged Examples.newYear "v1" 40]);
                     (Multi.mkTagConfig "v" 60 1,
                      [Examples.aged Examples.newYear "v2" 90])])
                 noDecision)).
Proof.
  apply (Multi_keeps_floor_of_every_group Examples.newYear Examples.reversed
           [(Multi.mkTagConfig "v1" 30 1,
             [Examples.aged Examples.newYear "v1" 40]);
            (Multi.mkTagConfig "v" 60 1,
             [Examples.aged Examples.newYear "v2" 90])]).
  repeat constructor; simpl; lia.
Defined.
